(** * NodejsWorkerBundler: a shallow embedding and its verified properties

    The development follows [src/lib/nodejsWorkerBundling/NodejsWorkerBundler.ts].

    - [JsString], [RegExp] and [Path] model the parts of the JavaScript
      and Node.js run time the file calls: string search and replace,
      regular expressions (a backtracking matcher and the pattern
      parser behind [new RegExp(source)]), and the POSIX [path] module.
    - [Bundler] is the class itself: [findPackageRoot], [toRegExp], the
      constructor, the two hooks [workflowsTransform] and
      [extractDependencies], [bundleWorker], [bundleWorkflows],
      [generatePackageJson] and [bundle].

    Strings are [string]s of 8-bit characters: the model covers
    JavaScript strings whose code units are below 256. *)

From Stdlib Require Import Ascii String List Bool Arith Lia.
From stdpp Require Import base option list gmap strings pretty.

Local Open Scope string_scope.
Local Open Scope list_scope.
Local Open Scope nat_scope.

(** ** JavaScript strings *)

Module JsString.

Definition chars := list ascii.

Definition of_chars (l : chars) : string := string_of_list_ascii l.
Definition to_chars (s : string) : chars := list_ascii_of_string s.

Definition ascii_eqb (a b : ascii) : bool := Ascii.eqb a b.

Fixpoint chars_eqb (a b : chars) : bool :=
  match a, b with
  | [], [] => true
  | x :: a', y :: b' => ascii_eqb x y && chars_eqb a' b'
  | _, _ => false
  end.

(** [is_prefix p l]: [l] begins with [p]. *)
Fixpoint is_prefix (p l : chars) : bool :=
  match p, l with
  | [], _ => true
  | x :: p', y :: l' => ascii_eqb x y && is_prefix p' l'
  | _ :: _, [] => false
  end.

(** [String.prototype.startsWith(prefix)] (position 0). *)
Definition startsWith (s prefix : string) : bool :=
  is_prefix (to_chars prefix) (to_chars s).

(** [String.prototype.indexOf(pat)]: the least position at which
    [pat] occurs, if any. *)
Fixpoint indexOf (pat l : chars) : option nat :=
  if is_prefix pat l then Some 0
  else match l with
       | [] => None
       | _ :: l' => S <$> indexOf pat l'
       end.

(** GetSubstitution for a match without captures: [$$], [$&], the
    text before the match and the text after it; any other
    character, a lone dollar sign included, is copied. *)
Fixpoint expand (repl before matched after : chars) : chars :=
  match repl with
  | [] => []
  | "$"%char :: "$"%char :: r => "$"%char :: expand r before matched after
  | "$"%char :: "&"%char :: r => matched ++ expand r before matched after
  | "$"%char :: "`"%char :: r => before ++ expand r before matched after
  | "$"%char :: "'"%char :: r => after ++ expand r before matched after
  | c :: r => c :: expand r before matched after
  end.

(** [s.replace(pat, repl)] with a string pattern: only the first
    occurrence of [pat], taken literally, is replaced. *)
Definition replace_string (s pat repl : string) : string :=
  let l := to_chars s in
  let p := to_chars pat in
  match indexOf p l with
  | None => s
  | Some i =>
      let before := take i l in
      let after := drop (i + length p) l in
      of_chars (before ++ expand (to_chars repl) before p after ++ after)
  end.

End JsString.

(** ** Regular expressions *)

Module RegExp.
Import JsString.

(** Pattern syntax trees.  Groups are not recorded: no pattern of
    the program refers back to a capture. *)
Inductive node : Type :=
| Empty
| Char (c : ascii)
| Dot
| Class (negated : bool) (ranges : list (ascii * ascii))
| AssertStart
| AssertEnd
| Seq (a b : node)
| Alt (a b : node)
| Star (a : node)
| Plus (a : node)
| Opt (a : node).

(** A RegExp object without the flags [g] and [y]: its pattern and
    its [i] flag.  Such an object has no state that [test] reads or
    writes: the answer depends on the tested string only. *)
Record regexp : Type := mkRegExp { pattern : node; ignoreCase : bool }.

(** A RegExp object as a caller may hand it over: besides the pattern
    it carries the flags [g] and [y].  With either of them [test]
    starts at [lastIndex] and moves it, so that the answer depends on
    the calls made before.  The objects covered are those whose
    pattern is a [node] and whose flags [m], [s], [u] and [v] are not
    set. *)
Record object : Type := mkObject { compiled : regexp; global : bool; sticky : bool }.

(** Canonicalize (non-unicode mode): [toUpperCase] of the code unit
    when that is again a single code unit in range. *)
Definition canonicalize (c : ascii) : ascii :=
  let n := nat_of_ascii c in
  if (97 <=? n) && (n <=? 122) then ascii_of_nat (n - 32)
  else if (224 <=? n) && (n <=? 254) && negb (n =? 247) then ascii_of_nat (n - 32)
  else c.

Definition char_matches (ic : bool) (a x : ascii) : bool :=
  if ic then ascii_eqb (canonicalize a) (canonicalize x) else ascii_eqb a x.

Definition range_chars (lo hi : ascii) : list ascii :=
  map ascii_of_nat (seq (nat_of_ascii lo) (S (nat_of_ascii hi) - nat_of_ascii lo)).

(** CharacterSetMatcher: some member of the set equals the input
    character, up to canonicalization when the [i] flag is set. *)
Definition class_matches (ic : bool) (ranges : list (ascii * ascii)) (x : ascii) : bool :=
  existsb (fun r => existsb (fun a => char_matches ic a x) (range_chars (fst r) (snd r))) ranges.

Definition is_line_terminator (c : ascii) : bool :=
  ascii_eqb c "010"%char || ascii_eqb c "013"%char.

(** Greedy repetition: the end positions reachable by iterating
    [step], longest first.  An iteration that consumes nothing is
    rejected, as RepeatMatcher does. *)
Fixpoint star_ends (fuel : nat) (step : nat -> list nat) (i : nat) : list nat :=
  match fuel with
  | 0 => [i]
  | S f => flat_map (fun j => if j =? i then [] else star_ends f step j) (step i) ++ [i]
  end.

(** [ends ic inp r i]: the positions at which a match of [r] that
    starts at position [i] of [inp] can end, in the order in which
    the backtracking matcher tries them. *)
Fixpoint ends (ic : bool) (inp : chars) (r : node) (i : nat) : list nat :=
  match r with
  | Empty => [i]
  | Char c =>
      match inp !! i with
      | Some x => if char_matches ic c x then [S i] else []
      | None => []
      end
  | Dot =>
      match inp !! i with
      | Some x => if is_line_terminator x then [] else [S i]
      | None => []
      end
  | Class neg ranges =>
      match inp !! i with
      | Some x => if xorb neg (class_matches ic ranges x) then [S i] else []
      | None => []
      end
  | AssertStart => if i =? 0 then [i] else []
  | AssertEnd => if i =? length inp then [i] else []
  | Seq a b => flat_map (ends ic inp b) (ends ic inp a i)
  | Alt a b => ends ic inp a i ++ ends ic inp b i
  | Star a => star_ends (S (length inp)) (ends ic inp a) i
  | Plus a => flat_map (star_ends (S (length inp)) (ends ic inp a)) (ends ic inp a i)
  | Opt a => filter (fun j => j ≠ i) (ends ic inp a i) ++ [i]
  end.

(** The first match: the least start position that has a match, with
    the end the matcher finds first. *)
Definition exec_chars (re : regexp) (inp : chars) : option (nat * nat) :=
  head (omap (fun i => (fun j => (i, j)) <$> head (ends (ignoreCase re) inp (pattern re) i))
             (seq 0 (S (length inp)))).

(** [re.test(s)]. *)
Definition test (re : regexp) (s : string) : bool :=
  bool_decide (is_Some (exec_chars re (to_chars s))).

(** [s.replace(re, repl)] for a pattern without the [g] flag: only
    the first match is replaced. *)
Definition replace (s : string) (re : regexp) (repl : string) : string :=
  let l := to_chars s in
  match exec_chars re l with
  | None => s
  | Some (i, j) =>
      let before := take i l in
      let matched := take (j - i) (drop i l) in
      let after := drop j l in
      of_chars (before ++ expand (to_chars repl) before matched after ++ after)
  end.

(** *** The pattern parser behind [new RegExp(source)]

    The fragment covered: alternation, sequences, the greedy
    quantifiers [*], [+] and [?], groups (plain and [(?:...)]),
    [.], [^], [$], character classes with ranges and negation, and
    escapes of punctuation and of [n], [r], [t].  On anything else
    the parser answers [None]: either JavaScript raises a SyntaxError
    there (a quantifier with nothing to repeat, an unclosed group or
    class) or the construct is outside the fragment (braces, lazy
    quantifiers, look-around, class escapes such as [\d], a lone
    closing bracket).  [new] below tells the two apart. *)

Definition is_alnum (c : ascii) : bool :=
  let n := nat_of_ascii c in
  ((48 <=? n) && (n <=? 57)) || ((65 <=? n) && (n <=? 90)) || ((97 <=? n) && (n <=? 122)).

Definition parse_escape (c : ascii) : option ascii :=
  if ascii_eqb c "n" then Some "010"%char
  else if ascii_eqb c "r" then Some "013"%char
  else if ascii_eqb c "t" then Some "009"%char
  else if is_alnum c then None
  else Some c.

Definition class_atom (s : chars) : option (ascii * chars) :=
  match s with
  | [] => None
  | "\"%char :: [] => None
  | "\"%char :: c :: s' => (fun a => (a, s')) <$> parse_escape c
  | c :: s' => Some (c, s')
  end.

Fixpoint parse_class_items (fuel : nat) (s : chars) (acc : list (ascii * ascii))
  : option (list (ascii * ascii) * chars) :=
  match fuel with
  | 0 => None
  | S f =>
      match s with
      | [] => None
      | "]"%char :: s' => Some (rev acc, s')
      | _ =>
          match class_atom s with
          | None => None
          | Some (lo, s1) =>
              match s1 with
              | "-"%char :: "]"%char :: _ => parse_class_items f s1 ((lo, lo) :: acc)
              | "-"%char :: s2 =>
                  match class_atom s2 with
                  | None => None
                  | Some (hi, s3) =>
                      if nat_of_ascii lo <=? nat_of_ascii hi
                      then parse_class_items f s3 ((lo, hi) :: acc)
                      else None
                  end
              | _ => parse_class_items f s1 ((lo, lo) :: acc)
              end
          end
      end
  end.

Definition parse_class (s : chars) : option (node * chars) :=
  match s with
  | "^"%char :: s' =>
      (fun p => (Class true (fst p), snd p)) <$> parse_class_items (S (length s')) s' []
  | _ =>
      (fun p => (Class false (fst p), snd p)) <$> parse_class_items (S (length s)) s []
  end.

Definition not_lazy (s : chars) : bool :=
  match s with
  | "?"%char :: _ => false
  | _ => true
  end.

(** An optional quantifier after the atom [a]. *)
Definition quantify (a : node) (s : chars) : option (node * chars) :=
  match s with
  | "*"%char :: s' => if not_lazy s' then Some (Star a, s') else None
  | "+"%char :: s' => if not_lazy s' then Some (Plus a, s') else None
  | "?"%char :: s' => if not_lazy s' then Some (Opt a, s') else None
  | "{"%char :: _ => None
  | _ => Some (a, s)
  end.

Definition close_group (r : option (node * chars)) : option (node * chars) :=
  match r with
  | Some (a, ")"%char :: s') => quantify a s'
  | _ => None
  end.

Fixpoint parse_disjunction (fuel : nat) (s : chars) : option (node * chars) :=
  match fuel with
  | 0 => None
  | S f =>
      match parse_alternative f s with
      | Some (a, "|"%char :: s') =>
          match parse_disjunction f s' with
          | Some (b, s'') => Some (Alt a b, s'')
          | None => None
          end
      | r => r
      end
  end
with parse_alternative (fuel : nat) (s : chars) : option (node * chars) :=
  match fuel with
  | 0 => None
  | S f =>
      match s with
      | [] => Some (Empty, s)
      | "|"%char :: _ => Some (Empty, s)
      | ")"%char :: _ => Some (Empty, s)
      | _ =>
          match parse_term f s with
          | Some (a, s') =>
              match parse_alternative f s' with
              | Some (b, s'') => Some (Seq a b, s'')
              | None => None
              end
          | None => None
          end
      end
  end
with parse_term (fuel : nat) (s : chars) : option (node * chars) :=
  match fuel with
  | 0 => None
  | S f =>
      match s with
      | [] => None
      | "^"%char :: s' => Some (AssertStart, s')
      | "$"%char :: s' => Some (AssertEnd, s')
      | "("%char :: "?"%char :: ":"%char :: s' => close_group (parse_disjunction f s')
      | "("%char :: "?"%char :: _ => None
      | "("%char :: s' => close_group (parse_disjunction f s')
      | "["%char :: s' =>
          match parse_class s' with
          | Some (a, s'') => quantify a s''
          | None => None
          end
      | "."%char :: s' => quantify Dot s'
      | "\"%char :: [] => None
      | "\"%char :: c :: s' =>
          match parse_escape c with
          | Some a => quantify (Char a) s'
          | None => None
          end
      | "*"%char :: _ | "+"%char :: _ | "?"%char :: _ => None
      | "{"%char :: _ | "}"%char :: _ | "]"%char :: _ => None
      | c :: s' => quantify (Char c) s'
      end
  end.

Definition parse (source : string) : option node :=
  let s := to_chars source in
  match parse_disjunction (4 * length s + 4) s with
  | Some (r, []) => Some r
  | _ => None
  end.

(** Sources written in the core of the pattern syntax: no brace,
    bracket or backslash, no group that begins with [(?], and no [?]
    after a quantifier.  What is left is alternation, groups, [.],
    [^], [$], the three greedy quantifiers and plain characters; on
    these sources the grammar of JavaScript is the one parsed above,
    so that a core source the parser rejects is a source [new RegExp]
    rejects. *)
Definition core_char (c : ascii) : bool :=
  negb (ascii_eqb c "{" || ascii_eqb c "}" || ascii_eqb c "[" || ascii_eqb c "]"
        || ascii_eqb c "\").

Fixpoint core_syntax (s : chars) : bool :=
  match s with
  | [] => true
  | c :: s' =>
      core_char c
      && negb ((ascii_eqb c "(" || ascii_eqb c "*" || ascii_eqb c "+" || ascii_eqb c "?")
               && is_prefix ["?"%char] s')
      && core_syntax s'
  end.

(** What the model says about [new RegExp(source)]: the object it
    returns, the SyntaxError it raises, or nothing, for a source
    outside the fragment that may well be a valid pattern. *)
Inductive construction : Type :=
| Compiled (re : regexp)
| SyntaxError
| Unsupported.

(** [new RegExp(source)], without flags. *)
Definition new (source : string) : construction :=
  match parse source with
  | Some r => Compiled (mkRegExp r false)
  | None => if core_syntax (to_chars source) then SyntaxError else Unsupported
  end.

(** A regular expression literal [/source/] or [/source/i]. *)
Definition literal (source : string) (ic : bool) : regexp :=
  mkRegExp (default Empty (parse source)) ic.

End RegExp.

(** ** The POSIX [path] module of Node.js *)

Module Path.
Import JsString.

Definition is_slash (c : ascii) : bool := ascii_eqb c "/".

Fixpoint drop_while (f : ascii -> bool) (l : chars) : chars :=
  match l with
  | [] => []
  | c :: l' => if f c then drop_while f l' else l
  end.

Fixpoint take_while (f : ascii -> bool) (l : chars) : chars :=
  match l with
  | [] => []
  | c :: l' => if f c then c :: take_while f l' else []
  end.

(** [path.isAbsolute(p)]. *)
Definition isAbsolute (p : string) : bool :=
  match to_chars p with
  | c :: _ => is_slash c
  | [] => false
  end.

(** [path.dirname(p)].  Node scans the path from its end down to
    index 1: it skips the trailing slashes, then the last component,
    and cuts at the slash before it ([end]).  Here the scan runs over
    the reversed tail of the path. *)
Definition dirname_chars (p : chars) : chars :=
  match p with
  | [] => ["."%char]
  | c0 :: rest =>
      let after_slashes := drop_while is_slash (rev rest) in
      let after_component := drop_while (fun c => negb (is_slash c)) after_slashes in
      match after_component with
      | [] => if is_slash c0 then ["/"%char] else ["."%char]
      | _ :: kept =>
          if is_slash c0 && bool_decide (kept = [])
          then ["/"%char; "/"%char]
          else c0 :: rev kept
      end
  end.

Definition dirname (p : string) : string := of_chars (dirname_chars (to_chars p)).

(** [path.basename(p)], without a suffix argument: the last
    component, trailing slashes ignored. *)
Definition basename_chars (p : chars) : chars :=
  rev (take_while (fun c => negb (is_slash c)) (drop_while is_slash (rev p))).

Definition basename (p : string) : string := of_chars (basename_chars (to_chars p)).

(** The components of a path: the pieces between slashes. *)
Fixpoint split_slash (l : chars) (cur : chars) : list chars :=
  match l with
  | [] => [rev cur]
  | c :: l' => if is_slash c then rev cur :: split_slash l' [] else split_slash l' (c :: cur)
  end.

Definition is_dot (seg : chars) : bool := chars_eqb seg ["."%char].
Definition is_dotdot (seg : chars) : bool := chars_eqb seg ["."%char; "."%char].

(** [normalizeString]: empty and [.] components are dropped, [..]
    removes the component before it; with nothing to remove it is
    kept when [allowAboveRoot] and dropped otherwise.  [stack] holds
    the components kept so far, the last one first. *)
Fixpoint normalize_segments (allowAboveRoot : bool) (segs : list chars) (stack : list chars)
  : list chars :=
  match segs with
  | [] => rev stack
  | seg :: segs' =>
      if bool_decide (seg = []) || is_dot seg then normalize_segments allowAboveRoot segs' stack
      else if is_dotdot seg then
        match stack with
        | top :: below =>
            if is_dotdot top
            then normalize_segments allowAboveRoot segs'
                   (if allowAboveRoot then seg :: stack else stack)
            else normalize_segments allowAboveRoot segs' below
        | [] =>
            normalize_segments allowAboveRoot segs'
              (if allowAboveRoot then [seg] else [])
        end
      else normalize_segments allowAboveRoot segs' (seg :: stack)
  end.

Fixpoint join_slash (segs : list chars) : chars :=
  match segs with
  | [] => []
  | [seg] => seg
  | seg :: segs' => seg ++ "/"%char :: join_slash segs'
  end.

Definition normalizeString (p : chars) (allowAboveRoot : bool) : chars :=
  join_slash (normalize_segments allowAboveRoot (split_slash p []) []).

(** The right-to-left pass of [path.resolve]: arguments are
    prepended until one is absolute; empty arguments are skipped. *)
Fixpoint resolve_prepend (args_rev : list string) (acc : chars) : chars * bool :=
  match args_rev with
  | [] => (acc, false)
  | a :: rest =>
      match to_chars a with
      | [] => resolve_prepend rest acc
      | c :: _ =>
          let acc' := to_chars a ++ "/"%char :: acc in
          if is_slash c then (acc', true) else resolve_prepend rest acc'
      end
  end.

(** [path.resolve(...args)]; [cwd] is [process.cwd()], consulted
    when no argument is absolute. *)
Definition resolve (cwd : string) (args : list string) : string :=
  let '(joined, absolute) := resolve_prepend (rev args ++ [cwd]) [] in
  let normal := normalizeString joined (negb absolute) in
  if absolute then of_chars ("/"%char :: normal)
  else match normal with
       | [] => "."
       | _ => of_chars normal
       end.

End Path.

(** ** The bundler class *)

Module Bundler.
Import JsString.

(** How a JavaScript computation ends: it returns a value, it raises
    an error, or it does not end at all. *)
Inductive outcome (A : Type) : Type :=
| Return (a : A)
| Throw (e : string)
| Diverge.
Arguments Return {A} a.
Arguments Throw {A} e.
Arguments Diverge {A}.

(** *** The file system, as [findPackageRoot] sees it *)

Record filesystem : Type := {
  (** [realFS.statSync(p).isFile()]; [None] when [statSync] raises
      (the path does not exist). *)
  statSync_isFile : string -> option bool;
  (** [realFS.existsSync(p)]. *)
  existsSync : string -> bool;
}.

(** The [while (p !== '/')] loop of [findPackageRoot].  [None]: the
    loop is still running when the fuel is spent. *)
Fixpoint findPackageRoot_walk (fuel : nat) (fs : filesystem) (p : string)
  : option (option string) :=
  match fuel with
  | 0 => None
  | S f =>
      if bool_decide (p = "/") then Some None
      else if existsSync fs (p +:+ "/package.json") then Some (Some p)
      else findPackageRoot_walk f fs (Path.dirname p)
  end.

(** [findPackageRoot(p)].  The walk gets [String.length p + 2]
    rounds: enough for every absolute path, and a walk from a
    relative path that is not over by then never ends (both are
    proved below), so that [Diverge] stands for a loop that really
    does not terminate. *)
Definition findPackageRoot (fs : filesystem) (p : string) : outcome (option string) :=
  match statSync_isFile fs p with
  | None => Throw "ENOENT: no such file or directory, stat"
  | Some isFile =>
      let p0 := if isFile then Path.dirname p else p in
      match findPackageRoot_walk (String.length p0 + 2) fs p0 with
      | Some r => Return r
      | None => Diverge
      end
  end.

(** *** Externalization rules *)

(** A rule as the caller gives it: [inl] is a string, [inr] a RegExp
    object. *)
Definition rule : Type := string + RegExp.object.

(** [toRegExp(input)].  The first argument of [input.replace] is a
    string, so [replace] looks for that text itself.

    The answer is [None] where the model has none: for a string whose
    pattern lies outside the fragment of [RegExp.parse], and for a
    RegExp object with the flag [g] or [y], which the function
    returns as it is and whose [test] then depends on earlier calls.
    Everywhere else the answer is the one of the code: the object, or
    the SyntaxError of [new RegExp]. *)
Definition toRegExp (input : rule) : option (outcome RegExp.regexp) :=
  match input with
  | inr re =>
      if RegExp.global re || RegExp.sticky re then None
      else Some (Return (RegExp.compiled re))
  | inl str =>
      match RegExp.new ("^" +:+ replace_string str "[.?*+|\([{^$]" "\$&" +:+ "$") with
      | RegExp.Compiled re => Some (Return re)
      | RegExp.SyntaxError => Some (Throw "SyntaxError: Invalid regular expression")
      | RegExp.Unsupported => None
      end
  end.

(** [inputs.map(toRegExp)]: the rules are compiled in order, and the
    first error ends the loop. *)
Fixpoint map_toRegExp (inputs : list rule) : option (outcome (list RegExp.regexp)) :=
  match inputs with
  | [] => Some (Return [])
  | input :: rest =>
      match toRegExp input with
      | Some (Return re) =>
          match map_toRegExp rest with
          | Some (Return res) => Some (Return (re :: res))
          | other => other
          end
      | Some (Throw e) => Some (Throw e)
      | Some Diverge => Some Diverge
      | None => None
      end
  end.

Definition workflowBundlePattern : RegExp.regexp :=
  RegExp.literal "^.[/](?:[a-z0-9-]+)[.]workflowbundle[.]js$" false.
Definition coreBridgePattern : RegExp.regexp := RegExp.literal "^@temporalio[/]core-bridge$" false.
Definition protoPattern : RegExp.regexp := RegExp.literal "^@temporalio[/]proto$" false.
Definition commonPattern : RegExp.regexp := RegExp.literal "^@temporalio[/]common$" false.

(** [patterns.some((pattern) => pattern.test(candidate))]. *)
Definition some_pattern_matches (patterns : list RegExp.regexp) (candidate : string) : bool :=
  existsb (fun pattern => RegExp.test pattern candidate) patterns.

(** *** The object's fields *)

Module Entry.
Record entry : Type := mkEntry { sourcePath : string; targetPath : string }.
End Entry.

Module PackageJson.
Record content : Type := mkPackageJson {
  dependencies : gmap string string;
  main : option string;
  private : bool;
}.
End PackageJson.

Record bundler : Type := mkBundler {
  entrypointPath : string;
  targetPath : string;
  entrypointPackageRoot : option string;
  externalDepsPatterns : list RegExp.regexp;
  (** [workflowsBundles] is a plain object used as a map from
      identifiers to entries. *)
  workflowsBundles : gmap string Entry.entry;
  (** The keys of [workflowsBundles] in the order in which its
      properties were created, which [Object.values] in
      [bundleWorkflows] observes. *)
  workflowsBundlesCreated : list string;
  packageJson : PackageJson.content;
  optimize : bool;
}.

(** [object[key] = value] on a plain object whose values are strings:
    the key [__proto__] is the accessor of the prototype, and assigning
    a string to it creates no property. *)
Definition assign_string (object : gmap string string) (key value : string)
  : gmap string string :=
  if bool_decide (key = "__proto__") then object else <[key := value]> object.

(** [this.workflowsBundles[id] = entry]: a property that exists
    keeps its place, a new one is created last. *)
Definition assign_workflowsBundle (this : bundler) (id : string) (entry : Entry.entry)
  : bundler :=
  mkBundler (entrypointPath this) (targetPath this) (entrypointPackageRoot this)
     (externalDepsPatterns this)
     (<[id := entry]> (workflowsBundles this))
     (if bool_decide (is_Some (workflowsBundles this !! id))
      then workflowsBundlesCreated this
      else workflowsBundlesCreated this ++ [id])
     (packageJson this) (optimize this).

Definition set_dependency (this : bundler) (name version : string) : bundler :=
  let pj := packageJson this in
  mkBundler (entrypointPath this) (targetPath this) (entrypointPackageRoot this)
     (externalDepsPatterns this) (workflowsBundles this) (workflowsBundlesCreated this)
     (PackageJson.mkPackageJson (assign_string (PackageJson.dependencies pj) name version)
                     (PackageJson.main pj) (PackageJson.private pj))
     (optimize this).

Record Options : Type := {
  opt_entrypointPath : string;
  opt_targetPath : string;
  opt_externals : option (list rule);
}.

(** [new NodejsWorkerBundler(opts)]; [None] where [toRegExp] has no
    answer for a rule that is reached. *)
Definition constructor (fs : filesystem) (opts : Options) : option (outcome bundler) :=
  if negb (Path.isAbsolute (opt_entrypointPath opts))
  then Some (Throw "entrypointPath must be absolute")
  else
    match findPackageRoot fs (opt_entrypointPath opts) with
    | Throw e => Some (Throw e)
    | Diverge => Some Diverge
    | Return root =>
        match map_toRegExp (default [] (opt_externals opts)) with
        | None => None
        | Some (Throw e) => Some (Throw e)
        | Some Diverge => Some Diverge
        | Some (Return extra) =>
            Some (Return
              (mkBundler (opt_entrypointPath opts) (opt_targetPath opts) root
                  ([workflowBundlePattern; coreBridgePattern; protoPattern; commonPattern]
                     ++ extra)
                  ∅ []
                  (PackageJson.mkPackageJson ∅ (Some (Path.basename (opt_entrypointPath opts))) true)
                  true))
        end
    end.

(** *** Effects: the object's state, errors, and a trace of events *)

Inductive file_content : Type :=
| Code (text : string)
(** [JSON.stringify(packageJson, null, 4)], kept as the object it prints. *)
| Json (manifest : PackageJson.content).

Inductive event : Type :=
| ConsoleLog (line : string)
| ConsoleInfo (line : string)
| ConsoleError (line : string)
| CompilerRun
| CompilerClose
| ModuleRead (path : string)
(** A file the engine itself writes (through its own output file
    system, not through [realFS]). *)
| AssetEmitted (path : string)
(** [realFS.writeFileSync(path, content)], called by the class. *)
| WriteFile (path : string) (content : file_content).

Definition M (A : Type) : Type := bundler -> outcome A * bundler * list event.

Definition ret {A} (a : A) : M A := fun this => (Return a, this, []).
Definition throw {A} (e : string) : M A := fun this => (Throw e, this, []).
Definition diverge {A} : M A := fun this => (Diverge, this, []).
Definition emit (ev : event) : M unit := fun this => (Return tt, this, [ev]).
Definition get : M bundler := fun this => (Return this, this, []).
Definition put (this' : bundler) : M unit := fun _ => (Return tt, this', []).

Definition bind {A B} (m : M A) (f : A -> M B) : M B :=
  fun this =>
    match m this with
    | (Return a, this', evs) =>
        let '(o, this'', evs') := f a this' in (o, this'', evs ++ evs')
    | (Throw e, this', evs) => (Throw e, this', evs)
    | (Diverge, this', evs) => (Diverge, this', evs)
    end.

Notation "x <- m ;; k" := (bind m (fun x => k))
  (at level 100, m at next level, right associativity).
Notation "m ;;; k" := (bind m (fun _ => k))
  (at level 100, right associativity).

(** [try { m } catch (_e) { handler }]. *)
Definition try_catch {A} (m : M A) (handler : M A) : M A :=
  fun this =>
    match m this with
    | (Throw _, this', evs) =>
        let '(o, this'', evs') := handler this' in (o, this'', evs ++ evs')
    | r => r
    end.

(** [try { m } finally { finalizer }]: the finalizer runs whenever
    [m] ends; if it raises, its error replaces the result of [m]. *)
Definition try_finally {A} (m : M A) (finalizer : M unit) : M A :=
  fun this =>
    match m this with
    | (Diverge, this', evs) => (Diverge, this', evs)
    | (o, this', evs) =>
        match finalizer this' with
        | (Return _, this'', evs') => (o, this'', evs ++ evs')
        | (Throw e, this'', evs') => (Throw e, this'', evs ++ evs')
        | (Diverge, this'', evs') => (Diverge, this'', evs ++ evs')
        end
    end.

(** *** The world outside the class *)

Record PackageDescriptor : Type := {
  (** The [name] and [version] fields of a [package.json]; [None]
      is [undefined]. *)
  name : option string;
  version : option string;
}.

(** String conversion of a field that may be [undefined]. *)
Definition to_String (v : option string) : string := default "undefined" v.

Record stats : Type := {
  hasErrors : bool;
  (** [stats.toString({...}).split('\n')]. *)
  lines : list string;
}.

(** What the bundler engine does between [compiler.run] and its
    callback: it reads modules, writes the files it produces, calls
    the two hooks as often and in the order it likes, may react to
    what they answer, and ends by calling back with [(err, stats)], or
    never calls back. *)
Inductive engine : Type :=
| Callback (err : option string) (st : option stats)
| NoCallback
| LoadModule (path : string) (next : engine)
| EmitAsset (path : string) (next : engine)
| Transform (workflowsPath filename : string) (next : outcome string -> engine)
| Externals (context request : string) (next : option string -> engine).

Record compiler : Type := {
  run : engine;
  (** The error [compiler.close] reports to its callback, if any. *)
  close : option string;
}.

Record environment : Type := {
  fs : filesystem;
  cwd : string;
  (** [data.getResolve()(context, request)]; [None] when the promise
      rejects or its value is not a path. *)
  resolve_request : string -> string -> option string;
  (** [require(path)] of a [package.json]; [None] when it raises. *)
  require_descriptor : string -> option PackageDescriptor;
  (** [webpack(config)] for the given entry and output file; [None]
      when the call raises as it validates the configuration. *)
  webpack : string -> string -> option compiler;
  (** [bundleWorkflowCode({ workflowsPath })]; [None] when it rejects. *)
  bundleWorkflowCode : string -> option string;
  (** Whether [realFS.writeFileSync] succeeds on a path. *)
  writable : string -> bool;
}.

(** *** The workflow reference rewriter *)

Definition nonAlphanumericRun : RegExp.regexp := RegExp.literal "[^a-z0-9]+" true.
Definition leadingDash : RegExp.regexp := RegExp.literal "^-" false.
Definition trailingDash : RegExp.regexp := RegExp.literal "-$" false.

Definition baseWorkflowsBundleId (workflowsPath : string) : string :=
  RegExp.replace
    (RegExp.replace
       (RegExp.replace (Path.basename workflowsPath) nonAlphanumericRun "-")
       leadingDash "")
    trailingDash "".

(** The property names every plain object inherits from
    [Object.prototype]. *)
Definition Object_prototype_keys : list string :=
  [ "constructor"; "__defineGetter__"; "__defineSetter__"; "hasOwnProperty";
    "__lookupGetter__"; "__lookupSetter__"; "isPrototypeOf"; "propertyIsEnumerable";
    "toString"; "valueOf"; "__proto__"; "toLocaleString" ].

(** [id in this.workflowsBundles]: own and inherited properties. *)
Definition in_workflowsBundles (wb : gmap string Entry.entry) (id : string) : bool :=
  bool_decide (is_Some (wb !! id)) || bool_decide (id ∈ Object_prototype_keys).

(** [this.workflowsBundles[id].sourcePath !== sourcePath]; an
    inherited property has no [sourcePath]. *)
Definition sourcePath_differs (wb : gmap string Entry.entry) (id sourcePath : string) : bool :=
  match wb !! id with
  | Some entry => negb (bool_decide (Entry.sourcePath entry = sourcePath))
  | None => true
  end.

Definition suffixed (base : string) (suffix : nat) : string :=
  base +:+ "-" +:+ pretty suffix.

(** The collision loop; [None] when the fuel is spent. *)
Fixpoint resolve_collision (fuel : nat) (wb : gmap string Entry.entry)
    (base sourcePath workflowsBundleId : string) (suffix : nat) : option string :=
  match fuel with
  | 0 => None
  | S f =>
      if in_workflowsBundles wb workflowsBundleId
         && sourcePath_differs wb workflowsBundleId sourcePath
      then resolve_collision f wb base sourcePath (suffixed base suffix) (S suffix)
      else Some workflowsBundleId
  end.

(** Enough rounds for the loop to end: it only passes identifiers
    that are properties of the table, and those are finitely many. *)
Definition collision_fuel (wb : gmap string Entry.entry) : nat :=
  S (size wb + length Object_prototype_keys).

Definition bundleTargetPath (workflowsBundleId : string) : string :=
  "./" +:+ workflowsBundleId +:+ ".workflowbundle.js".

Definition workflowsTransform (env : environment) (workflowsPath filename : string)
  : M string :=
  if negb (startsWith workflowsPath "./" || startsWith workflowsPath "../")
  then throw "workflowsPath must be relative"
  else
    let sourcePath := Path.resolve (cwd env) [Path.dirname filename; workflowsPath] in
    let base := baseWorkflowsBundleId workflowsPath in
    this <- get ;;
    match resolve_collision (collision_fuel (workflowsBundles this)) (workflowsBundles this)
            base sourcePath base 1 with
    | None => diverge
    | Some workflowsBundleId =>
        let targetPath := bundleTargetPath workflowsBundleId in
        (* The loop passes over every inherited name that is no own
           property, [__proto__] included, so this assignment creates
           or overwrites an own property. *)
        put (assign_workflowsBundle this workflowsBundleId
               (Entry.mkEntry sourcePath targetPath)) ;;;
        ret targetPath
    end.

(** *** The externalization classifier *)

Definition relativeRequest : RegExp.regexp := RegExp.literal "^[.][.]?[/]" false.

Definition unlocatedWarning (request : string) : string :=
  "Warning: Failed to locate package.json for dependency " +:+ request +:+ ".
" +:+ "That dependency WILL NOT be added to the generated worker's package.json.
" +:+ "This could possibly cause missing dependencies at runtime.".

(** The statements after the [try] block: the request itself is
    matched against the rules. *)
Definition matchRawRequest (request : string) : M (option string) :=
  this <- get ;;
  if some_pattern_matches (externalDepsPatterns this) request then
    (if negb (RegExp.test relativeRequest request)
     then emit (ConsoleLog (unlocatedWarning request))
     else ret tt) ;;;
    ret (Some ("commonjs " +:+ request))
  else ret None.

(** [packageRoot && packageRoot !== this.entrypointPackageRoot]. *)
Definition foreignRoot (this : bundler) (packageRoot : option string) : option string :=
  match packageRoot with
  | Some root =>
      if bool_decide (root ≠ "") && negb (bool_decide (packageRoot = entrypointPackageRoot this))
      then Some root
      else None
  | None => None
  end.

(** The body of the [try] block.  [Return (Some r)]: the block
    executed [return r]; [Return None]: it fell through. *)
Definition classifyResolved (env : environment) (context request : string)
  : M (option (option string)) :=
  match resolve_request env context request with
  | None => throw "resolve failed"
  | Some resolvedPath =>
      match findPackageRoot (fs env) resolvedPath with
      | Throw e => throw e
      | Diverge => diverge
      | Return packageRoot =>
          this <- get ;;
          match foreignRoot this packageRoot with
          | None => ret None
          | Some root =>
              match require_descriptor env (root +:+ "/package.json") with
              | None => throw "Cannot find module"
              | Some descriptor =>
                  let packageName := to_String (name descriptor) in
                  if some_pattern_matches (externalDepsPatterns this) packageName then
                    put (set_dependency this packageName (to_String (version descriptor))) ;;;
                    ret (Some (Some ("commonjs " +:+ request)))
                  else ret (Some None)
              end
          end
      end
  end.

(** [extractDependencies(data)]: [Some spec] externalizes the
    request, [None] ([undefined]) leaves it inline. *)
Definition extractDependencies (env : environment) (context request : string)
  : M (option string) :=
  returned <- try_catch (classifyResolved env context request) (ret None) ;;
  match returned with
  | Some result => ret result
  | None => matchRawRequest request
  end.

(** *** The main build *)

(** A hook called by the engine: an error it raises goes to the
    engine, not to [bundleWorker]. *)
Definition attempt {A} (m : M A) : M (outcome A) :=
  fun this =>
    match m this with
    | (Return a, this', evs) => (Return (Return a), this', evs)
    | (Throw e, this', evs) => (Return (Throw e), this', evs)
    | (Diverge, this', evs) => (Diverge, this', evs)
    end.

Fixpoint run_engine (env : environment) (e : engine) : M (option string * option stats) :=
  match e with
  | Callback err st => ret (err, st)
  | NoCallback => diverge
  | LoadModule path next => emit (ModuleRead path) ;;; run_engine env next
  | EmitAsset path next => emit (AssetEmitted path) ;;; run_engine env next
  | Transform workflowsPath filename next =>
      answer <- attempt (workflowsTransform env workflowsPath filename) ;;
      run_engine env (next answer)
  | Externals context request next =>
      answer <- extractDependencies env context request ;;
      run_engine env (next answer)
  end.

Fixpoint console_lines (hasError : bool) (ls : list string) : M unit :=
  match ls with
  | [] => ret tt
  | line :: rest =>
      emit (if hasError then ConsoleError line else ConsoleInfo line) ;;;
      console_lines hasError rest
  end.

(** The callback given to [compiler.run], which settles the promise
    [bundleWorker] awaits: the first [reject] or [resolve] wins. *)
Definition run_callback (err : option string) (st : option stats) : M unit :=
  rejected <- match st with
              | Some s => console_lines (hasErrors s) (lines s) ;;; ret (hasErrors s)
              | None => ret false
              end ;;
  if rejected : bool then throw "Webpack finished with errors."
  else match err with
       | Some e => throw e
       | None => ret tt
       end.

Definition close_compiler (c : compiler) : M unit :=
  emit CompilerClose ;;;
  match close c with
  | Some e => throw e
  | None => ret tt
  end.

Definition bundleWorker (env : environment) (entry target : string) : M unit :=
  match webpack env entry target with
  | None => throw "Invalid configuration object"
  | Some c =>
      try_finally
        (emit CompilerRun ;;;
         result <- run_engine env (run c) ;;
         run_callback (fst result) (snd result))
        (close_compiler c)
  end.

(** *** Workflow artifacts and the manifest *)

Definition writeFileSync (env : environment) (path : string) (content : file_content)
  : M unit :=
  if writable env path then emit (WriteFile path content)
  else throw "EACCES: permission denied, open".

Fixpoint bundleWorkflows_each (env : environment) (targetDirectory : string)
    (definitions : list Entry.entry) : M unit :=
  match definitions with
  | [] => ret tt
  | bundleDefinition :: rest =>
      emit (ConsoleLog "") ;;;
      emit (ConsoleLog ("Preparing workflows bundle from directory: "
                          +:+ Entry.sourcePath bundleDefinition)) ;;;
      match bundleWorkflowCode env (Entry.sourcePath bundleDefinition) with
      | None => throw "bundleWorkflowCode failed"
      | Some code =>
          writeFileSync env
            (Path.resolve (cwd env) [targetDirectory; Entry.targetPath bundleDefinition])
            (Code code) ;;;
          bundleWorkflows_each env targetDirectory rest
      end
  end.

(** An array index: the canonical decimal numeral of an integer
    below [2^32 - 1]. *)
Definition digit (c : ascii) : option N :=
  let n := N_of_ascii c in
  if (48 <=? n)%N && (n <=? 57)%N then Some (n - 48)%N else None.

Fixpoint numeral (l : chars) (acc : N) : option N :=
  match l with
  | [] => Some acc
  | c :: l' =>
      match digit c with
      | Some d => numeral l' (10 * acc + d)%N
      | None => None
      end
  end.

Definition array_index (key : string) : option N :=
  match to_chars key with
  | [] => None
  | ["0"%char] => Some 0%N
  | "0"%char :: _ => None
  | l =>
      match numeral l 0 with
      | Some n => if (n <=? 4294967294)%N then Some n else None
      | None => None
      end
  end.

Fixpoint insert_index (k : N * string) (l : list (N * string)) : list (N * string) :=
  match l with
  | [] => [k]
  | k' :: l' => if (fst k <=? fst k')%N then k :: l else k' :: insert_index k l'
  end.

Definition sort_indices (l : list (N * string)) : list (N * string) :=
  foldr insert_index [] l.

(** The own property keys of the table in the order of
    [OrdinaryOwnPropertyKeys]: the array indices in ascending order,
    then the other keys in the order of their creation.  Keys that the
    record of creations does not list come last; an object made by
    the constructor and changed by the hooks has none. *)
Definition own_keys (wb : gmap string Entry.entry) (created : list string) : list string :=
  let listed := remove_dups (filter (fun k => is_Some (wb !! k)) created) in
  let unlisted := filter (fun k => k ∉ created) (map_to_list wb).*1 in
  let keys := listed ++ unlisted in
  (snd <$> sort_indices (omap (fun k => (fun n => (n, k)) <$> array_index k) keys))
  ++ filter (fun k => ¬ is_Some (array_index k)) keys.

(** [Object.values(this.workflowsBundles)]. *)
Definition Object_values (this : bundler) : list Entry.entry :=
  omap (fun k => workflowsBundles this !! k)
    (own_keys (workflowsBundles this) (workflowsBundlesCreated this)).

Definition bundleWorkflows (env : environment) (targetDirectory : string) : M unit :=
  this <- get ;;
  bundleWorkflows_each env targetDirectory (Object_values this).

Definition generatePackageJson (env : environment) (targetDirectory : string) : M unit :=
  this <- get ;;
  writeFileSync env (targetDirectory +:+ "/package.json") (Json (packageJson this)).

Definition bundle (env : environment) : M unit :=
  this <- get ;;
  bundleWorker env (entrypointPath this) (targetPath this) ;;;
  bundleWorkflows env (Path.dirname (targetPath this)) ;;;
  generatePackageJson env (Path.dirname (targetPath this)).

End Bundler.

(** * Vocabulary of the statements *)

Module Spec.
Import JsString Bundler.

(** What [findPackageRoot] may answer: [null], or a directory that
    holds a [package.json]. *)
Definition root_answer (fs : filesystem) (r : option string) : Prop :=
  r = None \/ exists d, r = Some d /\ existsSync fs (d +:+ "/package.json") = true.

(** The identifiers the collision loop tries, in order: the base
    itself, then the base with the suffixes 1, 2, ... *)
Definition candidate (base : string) (k : nat) : string :=
  match k with
  | 0 => base
  | S _ => suffixed base k
  end.

(** The loop passes over [id] for the source path [sourcePath]. *)
Definition blocked (wb : gmap string Entry.entry) (sourcePath id : string) : bool :=
  in_workflowsBundles wb id && sourcePath_differs wb id sourcePath.

(** [id] is the first candidate the loop does not pass over. *)
Definition allocated (wb : gmap string Entry.entry) (base sourcePath id : string) : Prop :=
  exists j, id = candidate base j /\ blocked wb sourcePath id = false /\
            forall i, i < j -> blocked wb sourcePath (candidate base i) = true.

(** A workflow reference: the reference string and the file that
    makes it. *)
Record reference : Type := { workflowsPath : string; filename : string }.

Definition isRelative (workflowsPath : string) : bool :=
  startsWith workflowsPath "./" || startsWith workflowsPath "../".

Definition sourcePathOf (env : environment) (r : reference) : string :=
  Path.resolve (cwd env) [Path.dirname (filename r); workflowsPath r].

Definition baseOf (r : reference) : string := baseWorkflowsBundleId (workflowsPath r).

Arguments baseWorkflowsBundleId : simpl never.
Arguments sourcePathOf : simpl never.
Arguments baseOf : simpl never.
Arguments bundleTargetPath : simpl never.

(** One rewriter call: its result and the object afterwards. *)
Definition rewrite_one (env : environment) (r : reference) (this : bundler) : outcome string * bundler :=
  fst (workflowsTransform env (workflowsPath r) (filename r) this).

(** The rewriter called on the references of a run, one after the
    other: the answers, and the object at the end. *)
Fixpoint rewrite_all (env : environment) (refs : list reference) (this : bundler)
  : list (outcome string) * bundler :=
  match refs with
  | [] => ([], this)
  | r :: rest =>
      let '(answer, this') := rewrite_one env r this in
      let '(answers, this'') := rewrite_all env rest this' in
      (answer :: answers, this'')
  end.

(** The entries of the table whose source path is [sourcePath]. *)
Definition entries_for (wb : gmap string Entry.entry) (sourcePath : string) : gmap string Entry.entry :=
  filter (fun kv => Entry.sourcePath (snd kv) = sourcePath) wb.

(** A later table keeps what an earlier one holds: every entry stays,
    with its source path, and an inherited name that is no own
    property does not become one. *)
Definition keeps (wb wb' : gmap string Entry.entry) : Prop :=
  (forall id e, wb !! id = Some e ->
     exists e', wb' !! id = Some e' /\ Entry.sourcePath e' = Entry.sourcePath e) /\
  (forall id, id ∈ Object_prototype_keys -> wb !! id = None -> wb' !! id = None).

(** [id] is the candidate of [base] that holds [sourcePath], and the
    loop passes over all candidates before it. *)
Definition settled (wb : gmap string Entry.entry) (base sourcePath id : string) : Prop :=
  exists j, id = candidate base j /\
    wb !! id = Some (Entry.mkEntry sourcePath (bundleTargetPath id)) /\
    forall i, i < j -> blocked wb sourcePath (candidate base i) = true.

(** No entry but the one under [id] has the source path. *)
Definition only_under (wb : gmap string Entry.entry) (sourcePath id : string) : Prop :=
  forall id' e, wb !! id' = Some e -> Entry.sourcePath e = sourcePath -> id' = id.

(** Every relative reference of the run to [sourcePath] derives [base]. *)
Definition one_base (env : environment) (refs : list reference) (base sourcePath : string)
  : Prop :=
  forall r, r ∈ refs -> isRelative (workflowsPath r) = true ->
            sourcePathOf env r = sourcePath -> baseOf r = base.

(** The answer of the raw-request match. *)
Definition rawAnswer (this : bundler) (request : string) : option string :=
  if some_pattern_matches (externalDepsPatterns this) request
  then Some ("commonjs " +:+ request)
  else None.

(** What the classifier records for a request: the name and the
    version of the package, when the request resolves into a package
    other than the entrypoint's whose name matches a rule (and can be
    a property: see [assign_string]); nothing in every other case, the
    raw-request match included. *)
Definition boundary_record (env : environment) (this : bundler) (context request : string)
  : option (string * string) :=
  match resolve_request env context request with
  | None => None
  | Some resolvedPath =>
      match findPackageRoot (fs env) resolvedPath with
      | Return packageRoot =>
          match foreignRoot this packageRoot with
          | None => None
          | Some root =>
              match require_descriptor env (root +:+ "/package.json") with
              | None => None
              | Some descriptor =>
                  if some_pattern_matches (externalDepsPatterns this) (to_String (name descriptor))
                     && negb (bool_decide (to_String (name descriptor) = "__proto__"))
                  then Some (to_String (name descriptor), to_String (version descriptor))
                  else None
              end
          end
      | _ => None
      end
  end.

(** The dependencies after a series of records, in order. *)
Definition record_all (records : list (string * string)) (deps : gmap string string)
  : gmap string string :=
  fold_left (fun d nv => <[fst nv := snd nv]> d) records deps.

(** The version recorded last under [name]. *)
Fixpoint latest (name : string) (records : list (string * string)) : option string :=
  match records with
  | [] => None
  | (n, v) :: rest =>
      match latest name rest with
      | Some v' => Some v'
      | None => if bool_decide (n = name) then Some v else None
      end
  end.

(** The requests the engine puts to the classifier in a run that
    starts from [this], in order. *)
Fixpoint asked (env : environment) (e : engine) (this : bundler) : list (string * string) :=
  match e with
  | Callback _ _ => []
  | NoCallback => []
  | LoadModule _ next => asked env next this
  | EmitAsset _ next => asked env next this
  | Transform workflowsPath filename next =>
      match attempt (workflowsTransform env workflowsPath filename) this with
      | (Return answer, this', _) => asked env (next answer) this'
      | _ => []
      end
  | Externals context request next =>
      (context, request) ::
      match extractDependencies env context request this with
      | (Return answer, this', _) => asked env (next answer) this'
      | _ => []
      end
  end.

Fixpoint records_of (env : environment) (this : bundler) (requests : list (string * string))
  : list (string * string) :=
  match requests with
  | [] => []
  | cr :: rest =>
      match boundary_record env this (fst cr) (snd cr) with
      | Some record => record :: records_of env this rest
      | None => records_of env this rest
      end
  end.

(** The events of the main build itself: console lines, module
    reads and the files the engine emits, but neither the start or the
    release of the compiler nor a file the class writes. *)
Definition engine_event (ev : event) : Prop :=
  match ev with
  | ConsoleLog _ | ConsoleInfo _ | ConsoleError _ | ModuleRead _ | AssetEmitted _ => True
  | _ => False
  end.

Definition is_manifest_write (ev : event) : bool :=
  match ev with
  | WriteFile _ (Json _) => true
  | _ => false
  end.

(** Two states of the object that differ at most in the tables the
    hooks fill. *)
Definition rules_kept (this this' : bundler) : Prop :=
  entrypointPath this' = entrypointPath this /\
  targetPath this' = targetPath this /\
  entrypointPackageRoot this' = entrypointPackageRoot this /\
  externalDepsPatterns this' = externalDepsPatterns this.

Definition dependenciesOf (this : bundler) : gmap string string :=
  PackageJson.dependencies (packageJson this).

Definition record_one (record : option (string * string)) (deps : gmap string string)
  : gmap string string :=
  match record with
  | Some (n, v) => <[n := v]> deps
  | None => deps
  end.

(** The manifests among the files a run wrote. *)
Fixpoint written_manifests (evs : list event) : list PackageJson.content :=
  match evs with
  | [] => []
  | WriteFile _ (Json manifest) :: rest => manifest :: written_manifests rest
  | _ :: rest => written_manifests rest
  end.

(** The result of a [try] block whose [finally] releases the
    compiler: an error of the release replaces it. *)
Definition after_close {A} (c : compiler) (o : outcome A) : outcome A :=
  match close c with
  | Some e => Throw e
  | None => o
  end.

(** A file the class itself writes, with [realFS.writeFileSync]. *)
Definition is_write (ev : event) : bool :=
  match ev with
  | WriteFile _ _ => true
  | _ => false
  end.

(** The characters that mean something in a pattern. *)
Definition syntax_characters : list ascii :=
  [ "^"; "$"; "\"; "."; "*"; "+"; "?"; "("; ")"; "["; "]"; "{"; "}"; "|" ]%char.

Definition plain_char (c : ascii) : bool := negb (bool_decide (c ∈ syntax_characters)).

(** A string without any character that means something in a pattern. *)
Definition plain (s : string) : bool := forallb plain_char (to_chars s).

(** The pattern that matches the characters of [l] and then the end
    of the input. *)
Fixpoint literal_tree (l : chars) : RegExp.node :=
  match l with
  | [] => RegExp.Seq RegExp.AssertEnd RegExp.Empty
  | c :: l' => RegExp.Seq (RegExp.Char c) (literal_tree l')
  end.


(** A table as the rewriter builds it: every entry carries the target
    path made from its own identifier, and no entry sits under a name
    that plain objects inherit. *)
Definition table_wf (wb : gmap string Entry.entry) : Prop :=
  forall id e, wb !! id = Some e ->
    Entry.targetPath e = bundleTargetPath id /\ id ∉ Object_prototype_keys.





(** Module resolution answers with absolute paths only. *)
Definition absolute_resolver (env : environment) : Prop :=
  forall context request resolvedPath,
    resolve_request env context request = Some resolvedPath ->
    Path.isAbsolute resolvedPath = true.


(** The record of creations is exact: it lists the keys of the table,
    each once. *)
Definition creations_recorded (this : bundler) : Prop :=
  NoDup (workflowsBundlesCreated this) /\
  forall k, k ∈ workflowsBundlesCreated this <-> is_Some (workflowsBundles this !! k).

(** The files the class wrote in a run, in order. *)
Fixpoint written_files (evs : list event) : list (string * file_content) :=
  match evs with
  | [] => []
  | WriteFile path content :: rest => (path, content) :: written_files rest
  | _ :: rest => written_files rest
  end.

(** How the promise of the main build is settled by the callback of
    [compiler.run]. *)
Definition settled_promise (err : option string) (st : option stats) : outcome unit :=
  match st with
  | Some s =>
      if hasErrors s then Throw "Webpack finished with errors."
      else match err with Some e => Throw e | None => Return tt end
  | None => match err with Some e => Throw e | None => Return tt end
  end.

(** The lines the callback prints. *)
Definition printed_lines (st : option stats) : list event :=
  match st with
  | Some s => (if hasErrors s then ConsoleError else ConsoleInfo) <$> lines s
  | None => []
  end.

(** The artifact [bundleWorkflows] writes for an entry: the file and
    the code in it; [None] when the workflow compiler fails. *)
Definition artifact (env : environment) (targetDirectory : string) (e : Entry.entry)
  : option (string * file_content) :=
  match bundleWorkflowCode env (Entry.sourcePath e) with
  | Some code =>
      Some (Path.resolve (cwd env) [targetDirectory; Entry.targetPath e], Code code)
  | None => None
  end.

Fixpoint artifacts (env : environment) (targetDirectory : string) (es : list Entry.entry)
  : option (list (string * file_content)) :=
  match es with
  | [] => Some []
  | e :: rest =>
      match artifact env targetDirectory e, artifacts env targetDirectory rest with
      | Some a, Some others => Some (a :: others)
      | _, _ => None
      end
  end.


(** Lower-case letters and digits. *)
Definition is_lower_alnum (c : ascii) : bool :=
  let n := nat_of_ascii c in
  ((97 <=? n) && (n <=? 122)) || ((48 <=? n) && (n <=? 57)).

Definition lower_alnum (s : string) : bool := forallb is_lower_alnum (to_chars s).

(** The characters of the identifiers the pattern for workflow
    bundles accepts: [a-z0-9-]. *)
Definition is_id_char (c : ascii) : bool := is_lower_alnum c || ascii_eqb "-" c.

(** The pattern that matches the characters of [l] and then [r]. *)
Fixpoint chars_then (l : chars) (r : RegExp.node) : RegExp.node :=
  match l with
  | [] => r
  | c :: l' => RegExp.Seq (RegExp.Char c) (chars_then l' r)
  end.

(** The part [[.]workflowbundle[.]js$] of the pattern for workflow
    bundles. *)
Definition bundle_tail : RegExp.node :=
  RegExp.Seq (RegExp.Class false [("."%char, "."%char)])
    (chars_then (to_chars "workflowbundle")
       (RegExp.Seq (RegExp.Class false [("."%char, "."%char)])
          (chars_then (to_chars "js") (RegExp.Seq RegExp.AssertEnd RegExp.Empty)))).

Definition id_class : RegExp.node :=
  RegExp.Class false [("a"%char, "z"%char); ("0"%char, "9"%char); ("-"%char, "-"%char)].

End Spec.

(** * Sample inputs

    Concrete file systems, environments and engines on which the
    statements below are evaluated. *)

Module Samples.
Import Bundler.

(** A disk on which nothing exists. *)
Definition emptyDisk : filesystem :=
  {| statSync_isFile := fun _ => None; existsSync := fun _ => false |}.

Definition is_one_of (l : list string) (p : string) : bool := bool_decide (p ∈ l).

(** An application in [/app] with two installed copies of [foo]
    and one of [bar]. *)
Definition appDisk : filesystem :=
  {| statSync_isFile := fun p =>
       if is_one_of [ "/app/src/worker.ts"; "/app/src/util.ts";
                      "/app/node_modules/foo/index.js";
                      "/app/node_modules/bar/index.js";
                      "/app/node_modules/bar/node_modules/foo/index.js";
                      "/opt/shared/helper.js" ] p
       then Some true
       else if is_one_of [ "/"; "/app"; "/app/src"; "/opt"; "/opt/shared" ] p
       then Some false
       else None;
     existsSync :=
       is_one_of [ "/app/package.json";
                   "/app/node_modules/foo/package.json";
                   "/app/node_modules/bar/package.json";
                   "/app/node_modules/bar/node_modules/foo/package.json" ] |}.

Definition appOptions : Options :=
  {| opt_entrypointPath := "/app/src/worker.ts";
     opt_targetPath := "/app/dist/worker.js";
     opt_externals := Some [inl "foo"] |}.

(** The object [new NodejsWorkerBundler(appOptions)] builds on [appDisk]. *)
Definition appBundler : bundler :=
  mkBundler "/app/src/worker.ts" "/app/dist/worker.js" (Some "/app")
     [ workflowBundlePattern; coreBridgePattern; protoPattern; commonPattern;
       RegExp.literal "^foo$" false ]
     ∅ [] (PackageJson.mkPackageJson ∅ (Some "worker.ts") true) true.

Definition ref (workflowsPath filename : string) : Spec.reference :=
  {| Spec.workflowsPath := workflowsPath; Spec.filename := filename |}.

(** How requests resolve in the sample application: [foo] has one
    copy for the application and one nested under [bar]; from
    [/app/src/local] the name [foo] is an alias of a file of the
    application itself; [/opt/shared/helper.js] lies in no package. *)
Definition appResolve (context request : string) : option string :=
  if bool_decide (request = "foo") then
    if bool_decide (context = "/app/node_modules/bar")
    then Some "/app/node_modules/bar/node_modules/foo/index.js"
    else if bool_decide (context = "/app/src/local") then Some "/app/src/util.ts"
    else Some "/app/node_modules/foo/index.js"
  else if bool_decide (request = "bar") then Some "/app/node_modules/bar/index.js"
  else if bool_decide (request = "./util") then Some "/app/src/util.ts"
  else if bool_decide (request = "shared-helper") then Some "/opt/shared/helper.js"
  else None.

Definition appDescriptors (path : string) : option PackageDescriptor :=
  if bool_decide (path = "/app/node_modules/foo/package.json")
  then Some {| name := Some "foo"; version := Some "1.0.0" |}
  else if bool_decide (path = "/app/node_modules/bar/node_modules/foo/package.json")
  then Some {| name := Some "foo"; version := Some "2.0.0" |}
  else if bool_decide (path = "/app/node_modules/bar/package.json")
  then Some {| name := Some "bar"; version := Some "3.1.0" |}
  else if bool_decide (path = "/app/package.json")
  then Some {| name := Some "app"; version := Some "0.1.0" |}
  else None.

Definition appEnvWith (c : option compiler) : environment :=
  {| fs := appDisk;
     cwd := "/app";
     resolve_request := appResolve;
     require_descriptor := appDescriptors;
     webpack := fun _ _ => c;
     bundleWorkflowCode := fun p => Some ("// workflows of " +:+ p);
     writable := fun _ => true |}.

Definition appEnv : environment := appEnvWith None.

Definition returned {A} (o : outcome A) : bool :=
  match o with
  | Return _ => true
  | _ => false
  end.

(** An engine that asks for [foo] from the application, for [bar],
    for [foo] from inside [bar], and for a package it cannot resolve. *)
Definition askingEngine : engine :=
  Externals "/app/src" "foo" (fun _ =>
  Externals "/app/src" "bar" (fun _ =>
  Externals "/app/node_modules/bar" "foo" (fun _ =>
  Externals "/app/src" "@temporalio/common" (fun _ =>
  Callback None (Some {| hasErrors := false; lines := [] |}))))).

(** An engine that loads the entrypoint, finds one workflow reference
    in it, and reports an error when the rewriter raises. *)
Definition rewritingEngine (workflowsPath : string) : engine :=
  LoadModule "/app/src/worker.ts"
    (Transform workflowsPath "/app/src/worker.ts" (fun answer =>
       if returned answer
       then Callback None (Some {| hasErrors := false; lines := ["compiled successfully"] |})
       else Callback None (Some {| hasErrors := true; lines := ["ERROR in ./src/worker.ts"] |}))).

(** The same, for an engine that also writes the main artifact
    before it calls back, as webpack does in development mode even
    when the compilation has errors. *)
Definition buildingEngine (workflowsPath : string) : engine :=
  LoadModule "/app/src/worker.ts"
    (Transform workflowsPath "/app/src/worker.ts" (fun answer =>
       EmitAsset "/app/dist/worker.js"
         (if returned answer
          then Callback None (Some {| hasErrors := false; lines := ["compiled successfully"] |})
          else Callback None (Some {| hasErrors := true;
                                      lines := ["ERROR in ./src/worker.ts"] |})))).

Definition quiet (e : engine) : option compiler := Some {| run := e; close := None |}.

End Samples.

(** * Properties *)

(** ** Strings and paths *)

Section StringFacts.
Import JsString.

Lemma to_of_chars (l : chars) : to_chars (of_chars l) = l.
Proof. apply list_ascii_of_string_of_list_ascii. Qed.

Lemma of_to_chars (s : string) : of_chars (to_chars s) = s.
Proof. apply string_of_list_ascii_of_string. Qed.

Lemma length_to_chars (s : string) : length (to_chars s) = String.length s.
Proof. induction s as [|c s IH]; simpl; [reflexivity | now rewrite IH]. Qed.

Lemma length_of_chars (l : chars) : String.length (of_chars l) = length l.
Proof. rewrite <- length_to_chars. now rewrite to_of_chars. Qed.

Lemma to_chars_inj (a b : string) : to_chars a = to_chars b -> a = b.
Proof. intros H. rewrite <- (of_to_chars a), <- (of_to_chars b). now rewrite H. Qed.

Lemma ascii_eqb_true (a b : ascii) : ascii_eqb a b = true <-> a = b.
Proof. apply Ascii.eqb_eq. Qed.

End StringFacts.

(** The regular expression literals of the program are all in the
    fragment the parser covers. *)
Example program_literals_parse :
  Forall (fun source => is_Some (RegExp.parse source))
    [ "^.[/](?:[a-z0-9-]+)[.]workflowbundle[.]js$";
      "^@temporalio[/]core-bridge$"; "^@temporalio[/]proto$"; "^@temporalio[/]common$";
      "[^a-z0-9]+"; "^-"; "-$"; "^[.][.]?[/]" ].
Proof. repeat constructor; vm_compute; eauto. Qed.

Example relativeRequest_tree :
  RegExp.parse "^[.][.]?[/]"
  = Some (RegExp.Seq RegExp.AssertStart
            (RegExp.Seq (RegExp.Class false [("."%char, "."%char)])
               (RegExp.Seq (RegExp.Opt (RegExp.Class false [("."%char, "."%char)]))
                  (RegExp.Seq (RegExp.Class false [("/"%char, "/"%char)]) RegExp.Empty)))).
Proof. vm_compute. reflexivity. Qed.

(** The matcher follows the order of a backtracking search: the first
    alternative that lets the rest match wins, not the longest. *)
Example first_match_in_backtracking_order :
  RegExp.exec_chars (RegExp.literal "(a|ab)(c|bcd)(d*)" false) (JsString.to_chars "xabcd")
  = Some (1, 5) /\
  RegExp.replace "abcabc" (RegExp.literal "b|bc" false) "-" = "a-cabc" /\
  RegExp.test (RegExp.literal "^(a*)*b$" false) "aaaaaaaac" = false.
Proof. vm_compute. auto. Qed.

Section PathFacts.
Import JsString Path.

Example dirname_samples :
  dirname <$> ["/a/b/c.ts"; "/a"; "/"; "//foo"; "/a/b/"; "a/b"; "a"; "."; ""; "a//b"]
  = ["/a/b"; "/"; "/"; "//"; "/a"; "a"; "."; "."; "."; "a/"].
Proof. vm_compute. reflexivity. Qed.

Example basename_samples :
  basename <$> ["/a/b/c.ts"; "./workflows"; "./workflows/"; "./workflows/."; "./"; "/"; ""]
  = ["c.ts"; "workflows"; "workflows"; "."; "."; ""; ""].
Proof. vm_compute. reflexivity. Qed.

Example resolve_samples :
  resolve "/cwd" <$> [ ["/app/src"; "./workflows"]; ["/app/src"; "../lib/./x/"];
                       ["/"; "../../x"]; ["rel"; "./x"]; ["/a/b"; "../../../.."] ]
  = ["/app/src/workflows"; "/app/lib/x"; "/x"; "/cwd/rel/x"; "/"].
Proof. vm_compute. reflexivity. Qed.

Lemma drop_while_length f l : length (drop_while f l) <= length l.
Proof.
  induction l as [|c l IH]; simpl; [lia|].
  destruct (f c); simpl; lia.
Qed.

Lemma drop_while_head f l x l' : drop_while f l = x :: l' -> f x = false.
Proof.
  induction l as [|c l IH]; simpl; [discriminate|].
  destruct (f c) eqn:Hc; [exact IH|].
  intros [= -> _]. exact Hc.
Qed.

(** The two scans of [dirname] leave a strict suffix of the tail. *)
Lemma dirname_scan_length rest x kept :
  drop_while (fun c => negb (is_slash c)) (drop_while is_slash (rev rest)) = x :: kept ->
  length kept + 2 <= length rest.
Proof.
  intros H.
  pose proof (drop_while_length is_slash (rev rest)) as H1.
  rewrite length_rev in H1.
  destruct (drop_while is_slash (rev rest)) as [|y l] eqn:Hs; [discriminate|].
  pose proof (drop_while_head _ _ _ _ Hs) as Hy.
  pose proof (drop_while_head _ _ _ _ H) as Hx.
  simpl in H. rewrite Hy in H. simpl in H.
  pose proof (drop_while_length (fun c => negb (is_slash c)) l) as H2.
  rewrite H in H2. simpl in *. lia.
Qed.

Lemma isAbsolute_chars (p : string) :
  isAbsolute p = true <-> exists rest, to_chars p = "/"%char :: rest.
Proof.
  unfold isAbsolute. destruct (to_chars p) as [|c rest]; split.
  - discriminate.
  - intros [? [=]].
  - intros H. apply ascii_eqb_true in H. subst. eauto.
  - intros [? [= -> _]]. reflexivity.
Qed.

Lemma root_chars (p : string) : to_chars p = ["/"%char] -> p = "/".
Proof. intros H. apply to_chars_inj. exact H. Qed.

(** One [dirname] step keeps an absolute path absolute. *)
Lemma dirname_absolute (p : string) : isAbsolute p = true -> isAbsolute (dirname p) = true.
Proof.
  intros [rest Hp]%isAbsolute_chars. apply isAbsolute_chars.
  unfold dirname, dirname_chars. rewrite Hp, to_of_chars.
  destruct (drop_while _ _) as [|x kept]; simpl; eauto.
  destruct (bool_decide _); eauto.
Qed.

(** One [dirname] step makes an absolute path other than the root
    strictly shorter. *)
Lemma dirname_absolute_shorter (p : string) :
  isAbsolute p = true -> p ≠ "/" -> String.length (dirname p) < String.length p.
Proof.
  intros [rest Hp]%isAbsolute_chars Hroot.
  rewrite <- (length_to_chars p). unfold dirname. rewrite length_of_chars.
  unfold dirname_chars. rewrite Hp.
  destruct (drop_while _ _) as [|x kept] eqn:Hscan; simpl.
  - destruct rest; simpl; [|lia]. exfalso. apply Hroot, root_chars, Hp.
  - apply dirname_scan_length in Hscan.
    destruct (bool_decide _); simpl; rewrite ?length_rev; lia.
Qed.

(** On a relative path a [dirname] step gives ["."] or a shorter
    relative path: never the root. *)
Lemma dirname_relative (p : string) :
  isAbsolute p = false ->
  dirname p = "." \/
  (isAbsolute (dirname p) = false /\ String.length (dirname p) < String.length p).
Proof.
  intros Hrel. unfold isAbsolute in Hrel.
  rewrite <- (length_to_chars p). unfold dirname, isAbsolute.
  rewrite length_of_chars, to_of_chars. unfold dirname_chars.
  destruct (to_chars p) as [|c0 rest]; [now left|].
  rewrite Hrel.
  destruct (drop_while _ _) as [|x kept] eqn:Hscan; simpl; [now left|].
  right. split; [exact Hrel|].
  apply dirname_scan_length in Hscan. rewrite length_rev. lia.
Qed.

Lemma relative_not_root (p : string) : isAbsolute p = false -> p ≠ "/".
Proof. intros H ->. discriminate. Qed.

End PathFacts.

(** ** [findPackageRoot] *)

Section FindPackageRoot.
Import JsString Path Bundler Spec.
Variable fs : filesystem.

Lemma walk_more_fuel fuel fuel' p r :
  findPackageRoot_walk fuel fs p = Some r -> fuel <= fuel' ->
  findPackageRoot_walk fuel' fs p = Some r.
Proof.
  revert fuel' p. induction fuel as [|fuel IH]; intros fuel' p H Hle; [discriminate|].
  destruct fuel' as [|fuel']; [lia|]. simpl in *.
  destruct (bool_decide (p = "/")); [exact H|].
  destruct (existsSync fs _); [exact H|].
  apply IH; [exact H | lia].
Qed.

(** From an absolute path the walk ends within as many rounds as the
    path has characters. *)
Lemma walk_absolute_terminates fuel p :
  isAbsolute p = true -> String.length p <= fuel ->
  exists r, findPackageRoot_walk fuel fs p = Some r /\ root_answer fs r.
Proof.
  revert p. induction fuel as [|fuel IH]; intros p Habs Hlen.
  - apply isAbsolute_chars in Habs as [rest Hp].
    rewrite <- length_to_chars, Hp in Hlen. simpl in Hlen. lia.
  - simpl. destruct (bool_decide (p = "/")) eqn:Hroot.
    + exists None. split; [reflexivity | now left].
    + apply bool_decide_eq_false in Hroot.
      destruct (existsSync fs (p +:+ "/package.json")) eqn:Hex.
      * exists (Some p). split; [reflexivity | right; eauto].
      * apply IH; [now apply dirname_absolute|].
        pose proof (dirname_absolute_shorter p Habs Hroot). lia.
Qed.

Lemma walk_dot_forever fuel :
  existsSync fs ("." +:+ "/package.json") = false ->
  findPackageRoot_walk fuel fs "." = None.
Proof.
  intros Hex. induction fuel as [|fuel IH]; [reflexivity|].
  simpl. simpl in Hex. rewrite Hex. exact IH.
Qed.

(** From a relative path the walk never answers [null]: it never
    reaches the root. *)
Lemma walk_relative_not_null fuel p :
  isAbsolute p = false -> findPackageRoot_walk fuel fs p ≠ Some None.
Proof.
  revert p. induction fuel as [|fuel IH]; intros p Hrel; [discriminate|].
  simpl. rewrite bool_decide_eq_false_2 by now apply relative_not_root.
  destruct (existsSync fs _); [discriminate|].
  destruct (dirname_relative p Hrel) as [-> | [Hrel' _]]; apply IH; [reflexivity | exact Hrel'].
Qed.

Lemma walk_S fuel p :
  findPackageRoot_walk (S fuel) fs p =
  if bool_decide (p = "/") then Some None
  else if existsSync fs (p +:+ "/package.json") then Some (Some p)
  else findPackageRoot_walk fuel fs (dirname p).
Proof. reflexivity. Qed.

Lemma walk_relative_S fuel p :
  isAbsolute p = false ->
  findPackageRoot_walk (S fuel) fs p = None ->
  existsSync fs (p +:+ "/package.json") = false /\
  findPackageRoot_walk fuel fs (dirname p) = None.
Proof.
  intros Hrel. rewrite walk_S.
  rewrite bool_decide_eq_false_2 by now apply relative_not_root.
  destruct (existsSync fs _); [discriminate | auto].
Qed.

(** A walk from a relative path that is still running after
    [String.length p + 2] rounds runs forever. *)
Lemma walk_relative_diverges n p :
  isAbsolute p = false -> String.length p <= n ->
  findPackageRoot_walk (n + 2) fs p = None ->
  forall fuel, findPackageRoot_walk fuel fs p = None.
Proof.
  revert p. induction n as [|n IH]; intros p Hrel Hlen Hout fuel.
  1: change (0 + 2) with (S (S 0)) in Hout.
  2: replace (S n + 2) with (S (S (S n))) in Hout by lia.
  all: apply walk_relative_S in Hout as [Hex Hout]; [|exact Hrel].
  all: destruct fuel as [|fuel]; [reflexivity|].
  all: rewrite walk_S, bool_decide_eq_false_2, Hex by now apply relative_not_root.
  all: destruct (dirname_relative p Hrel) as [Hdot | [Hrel' Hshort]].
  - rewrite Hdot in *. apply walk_dot_forever.
    apply walk_relative_S in Hout as [Hex' _]; [exact Hex' | reflexivity].
  - lia.
  - rewrite Hdot in *. apply walk_dot_forever.
    apply walk_relative_S in Hout as [Hex' _]; [exact Hex' | reflexivity].
  - apply IH; [exact Hrel' | lia |].
    replace (n + 2) with (S (S n)) by lia. exact Hout.
Qed.

End FindPackageRoot.

Section FindPackageRootClaim.
Import JsString Path Bundler Spec Samples.

(** C10, amended: for every absolute POSIX input path on which
    [statSync] succeeds, [findPackageRoot] terminates and returns
    either a directory containing a package descriptor or null; the
    answer is the one the loop gives with any number of rounds that
    is at least the length of the path it starts from. *)
Theorem findPackageRoot_absolute_returns (fs : filesystem) (p : string) (isFile : bool) :
  isAbsolute p = true ->
  statSync_isFile fs p = Some isFile ->
  exists r,
    findPackageRoot fs p = Return r /\ root_answer fs r /\
    forall fuel,
      String.length (if isFile then dirname p else p) <= fuel ->
      findPackageRoot_walk fuel fs (if isFile then dirname p else p) = Some r.
Proof.
  intros Habs Hstat. unfold findPackageRoot. rewrite Hstat.
  set (p0 := if isFile then dirname p else p).
  assert (isAbsolute p0 = true) as Habs0.
  { subst p0. destruct isFile; [now apply dirname_absolute | exact Habs]. }
  destruct (walk_absolute_terminates fs (String.length p0) p0 Habs0 (le_n _))
    as (r & Hwalk & Hr).
  exists r. rewrite (walk_more_fuel fs _ (String.length p0 + 2) _ _ Hwalk) by lia.
  split; [reflexivity|]. split; [exact Hr|].
  intros fuel Hfuel. now apply (walk_more_fuel fs (String.length p0)).
Qed.

Lemma findPackageRoot_absolute_returns_witness :
  isAbsolute "/app/src/worker.ts" = true /\
  statSync_isFile appDisk "/app/src/worker.ts" = Some true /\
  exists r,
    findPackageRoot appDisk "/app/src/worker.ts" = Return r /\ root_answer appDisk r /\
    forall fuel,
      String.length (dirname "/app/src/worker.ts") <= fuel ->
      findPackageRoot_walk fuel appDisk (dirname "/app/src/worker.ts") = Some r.
Proof.
  split; [reflexivity|]. split; [reflexivity|].
  apply (findPackageRoot_absolute_returns appDisk "/app/src/worker.ts" true); reflexivity.
Defined.

(** C10 as stated fails on an absolute path that does not exist:
    [statSync] raises, and so does [findPackageRoot]. *)
Lemma findPackageRoot_missing_path_raises :
  isAbsolute "/srv/gone/worker.ts" = true /\
  ~ exists r, findPackageRoot emptyDisk "/srv/gone/worker.ts" = Return r.
Proof. split; [reflexivity|]. intros [r H]. discriminate H. Qed.

(** On a relative path the walk never reaches the root: the answer
    is never null, and [Diverge] is a loop that no number of rounds
    ends. *)
Lemma findPackageRoot_relative (fs : filesystem) (p : string) :
  isAbsolute p = false ->
  statSync_isFile fs p = Some false ->
  findPackageRoot fs p ≠ Return None /\
  (findPackageRoot fs p = Diverge ->
   forall fuel, findPackageRoot_walk fuel fs p = None).
Proof.
  intros Hrel Hstat. unfold findPackageRoot. rewrite Hstat. split.
  - destruct (findPackageRoot_walk _ fs p) as [r|] eqn:Hw; [|discriminate].
    intros [= ->]. exact (walk_relative_not_null fs _ p Hrel Hw).
  - destruct (findPackageRoot_walk _ fs p) as [r|] eqn:Hw; [discriminate|].
    intros _. exact (walk_relative_diverges fs (String.length p) p Hrel (le_n _) Hw).
Qed.

Example findPackageRoot_relative_diverges :
  findPackageRoot
    {| statSync_isFile := fun _ => Some false; existsSync := fun _ => false |}
    "src/lib" = Diverge.
Proof. reflexivity. Qed.

Example findPackageRoot_finds_app :
  findPackageRoot appDisk "/app/node_modules/bar/node_modules/foo/index.js"
  = Return (Some "/app/node_modules/bar/node_modules/foo").
Proof. reflexivity. Qed.

End FindPackageRootClaim.

(** ** The collision loop *)

Section Allocation.
Import JsString Bundler Spec.

Lemma suffixed_ne_base base k : suffixed base k ≠ base.
Proof.
  unfold suffixed. intros H.
  assert (forall s : string, s = s +:+ "") as Hnil.
  { intros s. induction s as [|c s IH]; [reflexivity|].
    change (String c s = String c (s +:+ "")). now rewrite <- IH. }
  assert (base +:+ "-" +:+ pretty k = base +:+ "") as H' by (now rewrite <- Hnil).
  apply (inj (String.append base)) in H'. discriminate H'.
Qed.

Lemma suffixed_inj base i j : suffixed base i = suffixed base j -> i = j.
Proof.
  unfold suffixed. intros H.
  apply (inj (String.append base)) in H.
  apply (inj (String.append "-")) in H.
  now apply (inj pretty) in H.
Qed.

Lemma candidate_inj base i j : candidate base i = candidate base j -> i = j.
Proof.
  destruct i as [|i], j as [|j]; simpl; intros H.
  - reflexivity.
  - symmetry in H. now apply suffixed_ne_base in H.
  - now apply suffixed_ne_base in H.
  - now apply suffixed_inj in H.
Qed.

Lemma candidates_NoDup base n : NoDup (candidate base <$> seq 0 n).
Proof.
  apply NoDup_fmap_2_strong; [|apply NoDup_seq].
  intros i j _ _. apply candidate_inj.
Qed.

Lemma prototype_keys_NoDup : NoDup Object_prototype_keys.
Proof. refine (bool_decide_unpack _ _). vm_compute. exact I. Qed.

Lemma blocked_property wb sourcePath id :
  blocked wb sourcePath id = true ->
  id ∈ dom wb ∪ (list_to_set Object_prototype_keys : gset string).
Proof.
  unfold blocked, in_workflowsBundles.
  intros [[H|H]%orb_prop _]%andb_prop; apply bool_decide_eq_true in H.
  - apply elem_of_union_l, elem_of_dom, H.
  - apply elem_of_union_r, elem_of_list_to_set, H.
Qed.

Lemma blocked_prefix_or_free wb base sourcePath n :
  (forall j, j < n -> blocked wb sourcePath (candidate base j) = true) \/
  (exists j, j < n /\ blocked wb sourcePath (candidate base j) = false).
Proof.
  induction n as [|n [IH | (j & Hj & Hfree)]].
  - left. intros j Hj. lia.
  - destruct (blocked wb sourcePath (candidate base n)) eqn:Hn.
    + left. intros j Hj. destruct (decide (j = n)) as [->|]; [exact Hn | apply IH; lia].
    + right. exists n. split; [lia | exact Hn].
  - right. exists j. split; [lia | exact Hfree].
Qed.

(** The loop cannot pass over more candidates than the table has
    properties. *)
Lemma unblocked_candidate_exists wb base sourcePath :
  exists j, j < collision_fuel wb /\ blocked wb sourcePath (candidate base j) = false.
Proof.
  destruct (blocked_prefix_or_free wb base sourcePath (collision_fuel wb)) as [Hall | Hsome];
    [exfalso | exact Hsome].
  set (cs := candidate base <$> seq 0 (collision_fuel wb)).
  assert ((list_to_set cs : gset string)
            ⊆ dom wb ∪ (list_to_set Object_prototype_keys : gset string)) as Hsub.
  { intros c [j [-> Hj]]%elem_of_list_to_set%list_elem_of_fmap.
    apply (blocked_property wb sourcePath).
    apply Hall. apply elem_of_seq in Hj. lia. }
  apply subseteq_size in Hsub.
  rewrite size_list_to_set in Hsub by apply candidates_NoDup.
  unfold cs in Hsub. rewrite length_fmap, length_seq in Hsub.
  pose proof (size_union_alt (dom wb) (list_to_set Object_prototype_keys : gset string)) as Hu.
  assert (size ((list_to_set Object_prototype_keys : gset string) ∖ dom wb)
          <= size (list_to_set Object_prototype_keys : gset string)) as Hd.
  { apply subseteq_size, subseteq_difference_l. reflexivity. }
  rewrite size_list_to_set in Hd by apply prototype_keys_NoDup.
  rewrite size_dom in Hu. unfold collision_fuel in Hsub. lia.
Qed.

Lemma resolve_collision_S fuel wb base sourcePath k :
  resolve_collision (S fuel) wb base sourcePath (candidate base k) (S k) =
  if blocked wb sourcePath (candidate base k)
  then resolve_collision fuel wb base sourcePath (candidate base (S k)) (S (S k))
  else Some (candidate base k).
Proof. reflexivity. Qed.

(** With an unblocked candidate within reach, the loop stops at the
    first one. *)
Lemma resolve_collision_first fuel wb base sourcePath k :
  (exists j, k <= j < k + fuel /\ blocked wb sourcePath (candidate base j) = false) ->
  exists j, k <= j /\
    resolve_collision fuel wb base sourcePath (candidate base k) (S k) = Some (candidate base j) /\
    blocked wb sourcePath (candidate base j) = false /\
    forall i, k <= i < j -> blocked wb sourcePath (candidate base i) = true.
Proof.
  revert k. induction fuel as [|fuel IH]; intros k (j & Hj & Hfree); [lia|].
  rewrite resolve_collision_S.
  destruct (blocked wb sourcePath (candidate base k)) eqn:Hk.
  - destruct (IH (S k)) as (j' & Hle & Hres & Hfree' & Hbefore).
    { exists j. split; [|exact Hfree]. destruct (decide (j = k)) as [->|]; [congruence | lia]. }
    exists j'. split; [lia|]. split; [exact Hres|]. split; [exact Hfree'|].
    intros i Hi. destruct (decide (i = k)) as [->|]; [exact Hk | apply Hbefore; lia].
  - exists k. split; [lia|]. split; [reflexivity|]. split; [exact Hk|]. intros i Hi. lia.
Qed.

Lemma allocated_unique wb base sourcePath id id' :
  allocated wb base sourcePath id -> allocated wb base sourcePath id' -> id = id'.
Proof.
  intros (j & -> & Hf & Hb) (j' & -> & Hf' & Hb').
  destruct (Nat.lt_trichotomy j j') as [H | [-> | H]]; [| reflexivity |].
  - rewrite (Hb' j H) in Hf. discriminate.
  - rewrite (Hb j' H) in Hf'. discriminate.
Qed.

(** The loop of [workflowsTransform] always ends, at the allocated
    identifier. *)
Lemma resolve_collision_total wb base sourcePath :
  exists id,
    resolve_collision (collision_fuel wb) wb base sourcePath base 1 = Some id /\
    allocated wb base sourcePath id.
Proof.
  destruct (unblocked_candidate_exists wb base sourcePath) as (j & Hj & Hfree).
  destruct (resolve_collision_first (collision_fuel wb) wb base sourcePath 0)
    as (j' & _ & Hres & Hfree' & Hbefore).
  { exists j. split; [lia | exact Hfree]. }
  exists (candidate base j'). split; [exact Hres|].
  exists j'. split; [reflexivity|]. split; [exact Hfree'|].
  intros i Hi. apply Hbefore. lia.
Qed.

Lemma resolve_collision_allocated wb base sourcePath id :
  allocated wb base sourcePath id ->
  resolve_collision (collision_fuel wb) wb base sourcePath base 1 = Some id.
Proof.
  intros Ha. destruct (resolve_collision_total wb base sourcePath) as (id' & Hres & Ha').
  now rewrite (allocated_unique _ _ _ _ _ Ha Ha').
Qed.

End Allocation.

(** ** The workflow reference rewriter *)

Section Rewriter.
Import JsString Bundler Spec.
Variable env : environment.

Lemma workflowsTransform_not_relative w f this :
  isRelative w = false ->
  workflowsTransform env w f this = (Throw "workflowsPath must be relative", this, []).
Proof. unfold workflowsTransform, isRelative. intros ->. reflexivity. Qed.

(** On a relative reference the rewriter returns: it stores the entry
    under the allocated identifier and answers its target path. *)
Lemma workflowsTransform_relative w f this :
  isRelative w = true ->
  exists id,
    allocated (workflowsBundles this) (baseWorkflowsBundleId w)
      (Path.resolve (cwd env) [Path.dirname f; w]) id /\
    workflowsTransform env w f this =
      (Return (bundleTargetPath id),
       assign_workflowsBundle this id
         (Entry.mkEntry (Path.resolve (cwd env) [Path.dirname f; w]) (bundleTargetPath id)),
       []).
Proof.
  intros Hrel.
  destruct (resolve_collision_total (workflowsBundles this) (baseWorkflowsBundleId w)
              (Path.resolve (cwd env) [Path.dirname f; w])) as (id & Hres & Halloc).
  exists id. split; [exact Halloc|].
  unfold workflowsTransform. fold (isRelative w). rewrite Hrel.
  change (negb true) with false. cbv iota.
  unfold bind at 1. unfold get. cbv beta iota. rewrite Hres. reflexivity.
Qed.

Lemma keeps_refl wb : keeps wb wb.
Proof. split; eauto. Qed.

Lemma keeps_trans wb1 wb2 wb3 : keeps wb1 wb2 -> keeps wb2 wb3 -> keeps wb1 wb3.
Proof.
  intros [H1 P1] [H2 P2]. split.
  - intros id e He. destruct (H1 id e He) as (e' & He' & Hs).
    destruct (H2 id e' He') as (e'' & He'' & Hs'). exists e''. split; congruence.
  - intros id Hid Hnone. apply P2; [exact Hid | now apply P1].
Qed.

Lemma blocked_false_cases wb sourcePath id :
  blocked wb sourcePath id = false ->
  (wb !! id = None /\ id ∉ Object_prototype_keys) \/
  (exists e, wb !! id = Some e /\ Entry.sourcePath e = sourcePath).
Proof.
  unfold blocked, in_workflowsBundles, sourcePath_differs.
  destruct (wb !! id) as [e|] eqn:He.
  - rewrite bool_decide_eq_true_2 by eauto. simpl.
    intros H%negb_false_iff%bool_decide_eq_true. right. eauto.
  - rewrite bool_decide_eq_false_2 by (intros [? [=]]). simpl.
    rewrite andb_true_r. intros H%bool_decide_eq_false. left. auto.
Qed.

(** The loop never stops at an inherited name that is no own
    property; so the assignment that follows it always creates or
    overwrites an own property, never the prototype. *)
Lemma allocated_not_inherited wb base sourcePath id :
  allocated wb base sourcePath id -> wb !! id = None -> id ∉ Object_prototype_keys.
Proof.
  intros (_ & _ & Hfree & _) Hnone.
  apply blocked_false_cases in Hfree as [[_ Hnot] | (e & He & _)]; [exact Hnot | congruence].
Qed.

Lemma allocated_not_proto wb base sourcePath id :
  allocated wb base sourcePath id -> wb !! "__proto__" = None -> id ≠ "__proto__".
Proof.
  intros Ha Hnone ->. apply (allocated_not_inherited _ _ _ _ Ha Hnone).
  unfold Object_prototype_keys. rewrite !elem_of_cons. tauto.
Qed.

Lemma blocked_own wb sourcePath id e :
  wb !! id = Some e -> blocked wb sourcePath id = negb (bool_decide (Entry.sourcePath e = sourcePath)).
Proof.
  intros He. unfold blocked, in_workflowsBundles, sourcePath_differs. rewrite He.
  rewrite bool_decide_eq_true_2 by eauto. reflexivity.
Qed.

Lemma blocked_keeps wb wb' sourcePath id :
  keeps wb wb' -> blocked wb sourcePath id = true -> blocked wb' sourcePath id = true.
Proof.
  intros [Hown Hproto] Hb.
  destruct (wb !! id) as [e|] eqn:He.
  - destruct (Hown id e He) as (e' & He' & Hs).
    rewrite (blocked_own _ _ _ _ He) in Hb. rewrite (blocked_own _ _ _ _ He'), Hs. exact Hb.
  - unfold blocked, in_workflowsBundles, sourcePath_differs in *. rewrite He in Hb.
    rewrite bool_decide_eq_false_2 in Hb by (intros [? [=]]). simpl in Hb.
    rewrite andb_true_r in Hb. apply bool_decide_eq_true in Hb.
    rewrite (Hproto id Hb He). rewrite (bool_decide_eq_true_2 (id ∈ _)) by exact Hb.
    rewrite orb_true_r. reflexivity.
Qed.

(** Storing an entry under the allocated identifier keeps the table. *)
Lemma keeps_insert wb base sourcePath id target :
  allocated wb base sourcePath id ->
  keeps wb (<[id := Entry.mkEntry sourcePath target]> wb).
Proof.
  intros (j & -> & Hfree & _). split.
  - intros id' e He. destruct (decide (candidate base j = id')) as [<- | Hne].
    + rewrite lookup_insert_eq. eexists. split; [reflexivity|]. simpl.
      apply blocked_false_cases in Hfree as [[Hnone _] | (e0 & He0 & Hs)]; congruence.
    + rewrite lookup_insert_ne by exact Hne. eauto.
  - intros id' Hid Hnone. rewrite lookup_insert_ne; [exact Hnone|].
    intros <-. apply blocked_false_cases in Hfree as [[_ Hnot] | (e0 & He0 & _)];
      [contradiction | congruence].
Qed.

Lemma settled_allocated wb base sourcePath id :
  settled wb base sourcePath id -> allocated wb base sourcePath id.
Proof.
  intros (j & -> & He & Hbefore). exists j. split; [reflexivity|]. split; [|exact Hbefore].
  rewrite (blocked_own _ _ _ _ He). simpl. now rewrite bool_decide_eq_true_2.
Qed.

Lemma allocated_insert_settled wb base sourcePath id :
  allocated wb base sourcePath id ->
  settled (<[id := Entry.mkEntry sourcePath (bundleTargetPath id)]> wb) base sourcePath id.
Proof.
  intros Ha. pose proof (keeps_insert wb base sourcePath id (bundleTargetPath id) Ha) as Hk.
  destruct Ha as (j & -> & Hfree & Hbefore).
  exists j. split; [reflexivity|]. split; [apply lookup_insert_eq|].
  intros i Hi. apply (blocked_keeps wb); [exact Hk | now apply Hbefore].
Qed.

Lemma rewrite_one_not_relative r this :
  isRelative (workflowsPath r) = false ->
  rewrite_one env r this = (Throw "workflowsPath must be relative", this).
Proof. intros H. unfold rewrite_one. now rewrite workflowsTransform_not_relative. Qed.

Lemma rewrite_one_relative r this :
  isRelative (workflowsPath r) = true ->
  exists id,
    allocated (workflowsBundles this) (baseOf r) (sourcePathOf env r) id /\
    rewrite_one env r this =
      (Return (bundleTargetPath id),
       assign_workflowsBundle this id
         (Entry.mkEntry (sourcePathOf env r) (bundleTargetPath id))).
Proof.
  intros H. destruct (workflowsTransform_relative (workflowsPath r) (filename r) this H)
    as (id & Ha & Heq).
  exists id. split; [exact Ha|]. unfold rewrite_one. now rewrite Heq.
Qed.

Lemma rewrite_all_cons r rest this :
  rewrite_all env (r :: rest) this =
  (fst (rewrite_one env r this) :: fst (rewrite_all env rest (snd (rewrite_one env r this))),
   snd (rewrite_all env rest (snd (rewrite_one env r this)))).
Proof.
  simpl. destruct (rewrite_one env r this) as [answer this'].
  simpl. now destruct (rewrite_all env rest this').
Qed.

(** A settled identifier stays settled when another entry is stored. *)
Lemma settled_step wb base sourcePath id base' sourcePath' id' :
  settled wb base sourcePath id ->
  allocated wb base' sourcePath' id' ->
  settled (<[id' := Entry.mkEntry sourcePath' (bundleTargetPath id')]> wb) base sourcePath id.
Proof.
  intros (j & -> & He & Hbefore) Ha.
  pose proof (keeps_insert wb base' sourcePath' id' (bundleTargetPath id') Ha) as Hk.
  exists j. split; [reflexivity|]. split.
  - destruct (decide (id' = candidate base j)) as [-> | Hne].
    + rewrite lookup_insert_eq. destruct Ha as (_ & _ & Hfree & _).
      rewrite (blocked_own _ _ _ _ He) in Hfree. simpl in Hfree.
      apply negb_false_iff, bool_decide_eq_true in Hfree. now rewrite Hfree.
    + now rewrite lookup_insert_ne.
  - intros i Hi. apply (blocked_keeps wb); [exact Hk | now apply Hbefore].
Qed.

Lemma only_under_step wb base sourcePath id base' sourcePath' id' :
  settled wb base sourcePath id ->
  only_under wb sourcePath id ->
  allocated wb base' sourcePath' id' ->
  (sourcePath' = sourcePath -> base' = base) ->
  only_under (<[id' := Entry.mkEntry sourcePath' (bundleTargetPath id')]> wb) sourcePath id.
Proof.
  intros Hs Honly Ha Hbase id'' e He Hsrc.
  destruct (decide (id' = id'')) as [<- | Hne].
  - rewrite lookup_insert_eq in He. injection He as <-. simpl in Hsrc. subst sourcePath'.
    rewrite (Hbase eq_refl) in Ha.
    apply (allocated_unique wb base sourcePath); [exact Ha | now apply settled_allocated].
  - rewrite lookup_insert_ne in He by exact Hne. now apply (Honly id'' e).
Qed.

(** From a table in which [id] is settled for [(base, sourcePath)],
    every reference with that base and that source path is answered
    with the target path of [id]. *)
Lemma run_from_settled base sourcePath id refs :
  forall this,
    settled (workflowsBundles this) base sourcePath id ->
    settled (workflowsBundles (snd (rewrite_all env refs this))) base sourcePath id /\
    (forall k r, refs !! k = Some r -> isRelative (workflowsPath r) = true ->
       sourcePathOf env r = sourcePath -> baseOf r = base ->
       fst (rewrite_all env refs this) !! k = Some (Return (bundleTargetPath id))) /\
    (only_under (workflowsBundles this) sourcePath id ->
     one_base env refs base sourcePath ->
     only_under (workflowsBundles (snd (rewrite_all env refs this))) sourcePath id).
Proof.
  induction refs as [|r rest IH]; intros this Hs.
  - simpl. split; [exact Hs|]. split; [intros k r H; discriminate H | auto].
  - rewrite rewrite_all_cons. simpl fst. simpl snd.
    destruct (isRelative (workflowsPath r)) eqn:Hrel.
    + destruct (rewrite_one_relative r this Hrel) as (id' & Ha & Hone).
      rewrite Hone. simpl fst. simpl snd.
      pose proof (settled_step _ _ _ _ _ _ _ Hs Ha) as Hs'.
      destruct (IH (assign_workflowsBundle this id'
                      (Entry.mkEntry (sourcePathOf env r) (bundleTargetPath id'))) Hs')
        as (Hfin & Hans & Honly).
      split; [exact Hfin|]. split.
      * intros [|k] r' Hk Hrel' Hsrc Hbase.
        -- injection Hk as <-. simpl. do 2 f_equal. f_equal.
           rewrite Hsrc, Hbase in Ha.
           apply (allocated_unique (workflowsBundles this) base sourcePath);
             [exact Ha | now apply settled_allocated].
        -- simpl. now apply (Hans k r').
      * intros Ho Hb. apply Honly.
        -- simpl. apply (only_under_step _ base _ _ (baseOf r)); try assumption.
           intros Hsrc. apply Hb; [apply list_elem_of_here | exact Hrel | exact Hsrc].
        -- intros r' Hin. apply Hb. now apply list_elem_of_further.
    + rewrite (rewrite_one_not_relative r this Hrel). simpl fst. simpl snd.
      destruct (IH this Hs) as (Hfin & Hans & Honly).
      split; [exact Hfin|]. split.
      * intros [|k] r' Hk Hrel' Hsrc Hbase.
        -- injection Hk as <-. congruence.
        -- simpl. now apply (Hans k r').
      * intros Ho Hb. apply Honly; [exact Ho|].
        intros r' Hin. apply Hb. now apply list_elem_of_further.
Qed.

(** Two references with one base and one source path get one target. *)
Lemma run_same_target refs :
  forall this i j ri rj,
    refs !! i = Some ri -> refs !! j = Some rj ->
    isRelative (workflowsPath ri) = true -> isRelative (workflowsPath rj) = true ->
    sourcePathOf env ri = sourcePathOf env rj ->
    baseOf ri = baseOf rj ->
    exists id,
      fst (rewrite_all env refs this) !! i = Some (Return (bundleTargetPath id)) /\
      fst (rewrite_all env refs this) !! j = Some (Return (bundleTargetPath id)) /\
      settled (workflowsBundles (snd (rewrite_all env refs this)))
        (baseOf ri) (sourcePathOf env ri) id.
Proof.
  induction refs as [|r rest IH]; intros this i j ri rj Hi Hj Hri Hrj Hsrc Hbase;
    [discriminate Hi|].
  rewrite rewrite_all_cons. simpl fst. simpl snd.
  assert (isRelative (workflowsPath r) = true ->
          exists id,
            fst (rewrite_one env r this) = Return (bundleTargetPath id) /\
            settled (workflowsBundles (snd (rewrite_one env r this)))
              (baseOf r) (sourcePathOf env r) id) as Hhead.
  { intros Hrel0.
    destruct (rewrite_one_relative r this Hrel0) as (id & Ha & Hone).
    exists id. rewrite Hone. split; [reflexivity|]. simpl.
    now apply allocated_insert_settled. }
  destruct i as [|i], j as [|j]; simpl in Hi, Hj.
  - injection Hi as <-. destruct (Hhead Hri) as (id & Hans & Hs).
    destruct (run_from_settled _ _ id rest _ Hs) as (Hfin & _ & _).
    exists id. simpl. rewrite Hans. auto.
  - injection Hi as <-. destruct (Hhead Hri) as (id & Hans & Hs).
    destruct (run_from_settled _ _ id rest _ Hs) as (Hfin & Hrest & _).
    exists id. simpl. rewrite Hans. split; [reflexivity|]. split; [|exact Hfin].
    apply (Hrest j rj); auto.
  - injection Hj as <-. destruct (Hhead Hrj) as (id & Hans & Hs).
    rewrite <- Hsrc, <- Hbase in Hs.
    destruct (run_from_settled _ _ id rest _ Hs) as (Hfin & Hrest & _).
    exists id. simpl. rewrite Hans. split; [|split; [reflexivity | exact Hfin]].
    apply (Hrest i ri); auto.
  - simpl. apply (IH _ i j ri rj); assumption.
Qed.

Lemma entries_for_empty wb sourcePath id e :
  entries_for wb sourcePath = ∅ -> wb !! id = Some e -> Entry.sourcePath e ≠ sourcePath.
Proof.
  intros Hempty He Hs.
  assert (entries_for wb sourcePath !! id = Some e) as Hin
    by (apply map_lookup_filter_Some; auto).
  rewrite Hempty in Hin. discriminate Hin.
Qed.

Lemma entries_for_insert_other wb sourcePath id e :
  Entry.sourcePath e ≠ sourcePath ->
  entries_for wb sourcePath = ∅ ->
  entries_for (<[id := e]> wb) sourcePath = ∅.
Proof.
  intros Hne Hempty. apply map_empty. intros id'.
  apply eq_None_not_Some. intros [e' [He' Hs]%map_lookup_filter_Some]. simpl in Hs.
  destruct (decide (id = id')) as [<- | Hd].
  - rewrite lookup_insert_eq in He'. congruence.
  - rewrite lookup_insert_ne in He' by exact Hd.
    now apply (entries_for_empty wb sourcePath id' e').
Qed.

Lemma entries_for_settled wb base sourcePath id :
  settled wb base sourcePath id -> only_under wb sourcePath id ->
  size (entries_for wb sourcePath) = 1.
Proof.
  intros (j & _ & He & _) Honly.
  assert (entries_for wb sourcePath = {[ id := Entry.mkEntry sourcePath (bundleTargetPath id) ]})
    as ->; [|apply map_size_singleton].
  apply map_eq. intros id'. destruct (decide (id' = id)) as [-> | Hne].
  - rewrite lookup_singleton_eq. apply map_lookup_filter_Some. auto.
  - rewrite lookup_singleton_ne by congruence.
    apply eq_None_not_Some. intros [e' [He' Hs]%map_lookup_filter_Some].
    apply Hne. now apply (Honly id' e').
Qed.

(** From a table without an entry for [sourcePath], a run whose
    references to that path all derive [base] ends with no entry for
    it, or with exactly one. *)
Lemma run_from_none base sourcePath refs :
  forall this,
    entries_for (workflowsBundles this) sourcePath = ∅ ->
    one_base env refs base sourcePath ->
    (forall r, r ∈ refs -> isRelative (workflowsPath r) = true ->
               sourcePathOf env r ≠ sourcePath) \/
    size (entries_for (workflowsBundles (snd (rewrite_all env refs this))) sourcePath) = 1.
Proof.
  induction refs as [|r rest IH]; intros this Hnone Hb.
  - left. intros r H. now apply elem_of_nil in H.
  - rewrite rewrite_all_cons. simpl snd.
    assert (one_base env rest base sourcePath) as Hb'
      by (intros r' Hin; apply Hb; now apply list_elem_of_further).
    destruct (isRelative (workflowsPath r)) eqn:Hrel.
    + destruct (rewrite_one_relative r this Hrel) as (id & Ha & Hone).
      rewrite Hone. simpl snd.
      destruct (decide (sourcePathOf env r = sourcePath)) as [Hsrc | Hsrc].
      * right.
        assert (baseOf r = base) as Hbase by (apply Hb; [apply list_elem_of_here | auto ..]).
        rewrite Hsrc, Hbase in *.
        pose proof (allocated_insert_settled _ _ _ _ Ha) as Hs.
        destruct (run_from_settled base sourcePath id rest
                    (assign_workflowsBundle this id
         (Entry.mkEntry sourcePath (bundleTargetPath id))) Hs) as (Hfin & _ & Honly).
        apply (entries_for_settled _ base _ id); [exact Hfin|].
        apply Honly; [|exact Hb'].
        intros id' e He Hs'. simpl in He.
        destruct (decide (id = id')) as [<- | Hd]; [reflexivity|].
        rewrite lookup_insert_ne in He by exact Hd.
        now destruct (entries_for_empty _ _ _ _ Hnone He).
      * destruct (IH (assign_workflowsBundle this id
         (Entry.mkEntry (sourcePathOf env r) (bundleTargetPath id)))) as [Hnot | Hone'].
        -- simpl. now apply entries_for_insert_other.
        -- exact Hb'.
        -- left. intros r' [-> | Hin]%elem_of_cons; [auto | now apply Hnot].
        -- right. exact Hone'.
    + rewrite (rewrite_one_not_relative r this Hrel). simpl snd.
      destruct (IH this Hnone Hb') as [Hnot | Hone']; [left | now right].
      intros r' [-> | Hin]%elem_of_cons; [congruence | now apply Hnot].
Qed.

Lemma rewrite_one_keeps r this :
  keeps (workflowsBundles this) (workflowsBundles (snd (rewrite_one env r this))).
Proof.
  destruct (isRelative (workflowsPath r)) eqn:Hrel.
  - destruct (rewrite_one_relative r this Hrel) as (id & Ha & ->). simpl.
    now apply (keeps_insert _ (baseOf r)).
  - rewrite (rewrite_one_not_relative r this Hrel). apply keeps_refl.
Qed.

Lemma rewrite_all_keeps refs :
  forall this, keeps (workflowsBundles this) (workflowsBundles (snd (rewrite_all env refs this))).
Proof.
  induction refs as [|r rest IH]; intros this; [apply keeps_refl|].
  rewrite rewrite_all_cons. simpl snd.
  eapply keeps_trans; [apply rewrite_one_keeps | apply IH].
Qed.

Lemma to_chars_append (a b : string) : to_chars (a +:+ b) = to_chars a ++ to_chars b.
Proof.
  induction a as [|c a IH]; [reflexivity|].
  change (c :: to_chars (a +:+ b) = c :: (to_chars a ++ to_chars b)). now rewrite IH.
Qed.

Lemma bundleTargetPath_inj id id' : bundleTargetPath id = bundleTargetPath id' -> id = id'.
Proof.
  unfold bundleTargetPath. intros H.
  apply (inj (String.append "./")) in H.
  apply (f_equal to_chars) in H. rewrite !to_chars_append in H.
  apply app_inv_tail in H. now apply to_chars_inj.
Qed.

Lemma Return_inj {A} (a b : A) : Return a = Return b -> a = b.
Proof. now intros [=]. Qed.

(** Two different source paths are never assigned the same
    identifier: a reference to another source path, rewritten at any
    later point of the run, gets another target. *)
Lemma different_sources_different_targets this r1 between r2 :
  isRelative (workflowsPath r1) = true -> isRelative (workflowsPath r2) = true ->
  sourcePathOf env r1 ≠ sourcePathOf env r2 ->
  fst (rewrite_one env r1 this)
  ≠ fst (rewrite_one env r2 (snd (rewrite_all env between (snd (rewrite_one env r1 this))))).
Proof.
  intros H1 H2 Hsrc.
  destruct (rewrite_one_relative r1 this H1) as (id1 & Ha1 & ->). simpl fst. simpl snd.
  set (s1 := assign_workflowsBundle this _ _).
  destruct (rewrite_one_relative r2 (snd (rewrite_all env between s1)) H2) as (id2 & Ha2 & ->).
  simpl fst. intros Heq%Return_inj%bundleTargetPath_inj. subst id2.
  destruct (rewrite_all_keeps between s1) as [Hown _].
  destruct (Hown id1 (Entry.mkEntry (sourcePathOf env r1) (bundleTargetPath id1)))
    as (e' & He' & Hs); [apply lookup_insert_eq|].
  destruct Ha2 as (_ & _ & Hfree & _).
  rewrite (blocked_own _ _ _ _ He'), Hs in Hfree. simpl in Hfree.
  apply negb_false_iff, bool_decide_eq_true in Hfree. contradiction.
Qed.

End Rewriter.

Section RewriterClaims.
Import JsString Bundler Spec Samples.

Example constructor_appBundler : constructor appDisk appOptions = Some (Return appBundler).
Proof. vm_compute. reflexivity. Qed.

(** C2, amended: for any two rewriter invocations of one run whose
    reference strings resolve to the same absolute source path and
    derive the same candidate base identifier, the rewriter returns
    the identical target path both times; and when the table held no
    entry for that source path before the run and every reference of
    the run to it derives that base identifier, exactly one
    WorkflowBundleEntry exists for the source path after the run. *)
Theorem same_source_same_base_same_target
    (env : environment) (this : bundler) (refs : list reference) (i j : nat) (ri rj : reference) :
  refs !! i = Some ri -> refs !! j = Some rj ->
  isRelative (workflowsPath ri) = true -> isRelative (workflowsPath rj) = true ->
  sourcePathOf env ri = sourcePathOf env rj ->
  baseOf ri = baseOf rj ->
  exists target,
    fst (rewrite_all env refs this) !! i = Some (Return target) /\
    fst (rewrite_all env refs this) !! j = Some (Return target) /\
    (entries_for (workflowsBundles this) (sourcePathOf env ri) = ∅ ->
     one_base env refs (baseOf ri) (sourcePathOf env ri) ->
     size (entries_for (workflowsBundles (snd (rewrite_all env refs this)))
             (sourcePathOf env ri)) = 1).
Proof.
  intros Hi Hj Hri Hrj Hsrc Hbase.
  destruct (run_same_target env refs this i j ri rj Hi Hj Hri Hrj Hsrc Hbase)
    as (id & Hai & Haj & _).
  exists (bundleTargetPath id). split; [exact Hai|]. split; [exact Haj|].
  intros Hnone Hone.
  destruct (run_from_none env _ _ refs this Hnone Hone) as [Hnot | Hsize]; [|exact Hsize].
  exfalso. apply (Hnot ri); [|exact Hri | reflexivity].
  apply list_elem_of_lookup. eauto.
Qed.

Lemma same_source_same_base_same_target_witness :
  let refs := [ ref "./workflows" "/app/src/worker.ts";
                ref "./workflows" "/app/lib/jobs.ts";
                ref "../src/workflows" "/app/lib/jobs.ts" ] in
  exists target,
    fst (rewrite_all appEnv refs appBundler) !! 0 = Some (Return target) /\
    fst (rewrite_all appEnv refs appBundler) !! 2 = Some (Return target) /\
    (entries_for (workflowsBundles appBundler) "/app/src/workflows" = ∅ ->
     one_base appEnv refs "workflows" "/app/src/workflows" ->
     size (entries_for (workflowsBundles (snd (rewrite_all appEnv refs appBundler)))
             "/app/src/workflows") = 1).
Proof.
  apply (same_source_same_base_same_target appEnv appBundler
           [ ref "./workflows" "/app/src/worker.ts";
             ref "./workflows" "/app/lib/jobs.ts";
             ref "../src/workflows" "/app/lib/jobs.ts" ]
           0 2 (ref "./workflows" "/app/src/worker.ts")
           (ref "../src/workflows" "/app/lib/jobs.ts")); reflexivity.
Defined.

(** C2 as stated fails when the two reference strings have different
    base names: the directory [/app/src/workflows] referred to as
    [./workflows] from one file and as [./] from a file inside it. *)
Lemma same_source_two_targets :
  let r1 := ref "./workflows" "/app/src/worker.ts" in
  let r2 := ref "./" "/app/src/workflows/index.ts" in
  sourcePathOf appEnv r1 = "/app/src/workflows" /\
  sourcePathOf appEnv r2 = "/app/src/workflows" /\
  fst (rewrite_all appEnv [r1; r2] appBundler)
    = [Return "./workflows.workflowbundle.js"; Return "./.workflowbundle.js"] /\
  size (entries_for (workflowsBundles (snd (rewrite_all appEnv [r1; r2] appBundler)))
          "/app/src/workflows") = 2.
Proof. vm_compute. auto. Qed.

(** C3, amended: whenever two workflow references with different
    resolved source paths derive the same candidate base identifier,
    and that identifier is no property of the table when the first of
    them is rewritten, the first keeps the base identifier and the
    second, rewritten at any later point of the run, receives the base
    with a numeric suffix: the least one, from 1 on, whose identifier
    the loop does not pass over.  Two different source paths are never
    assigned the same identifier. *)
Theorem same_base_distinct_identifiers
    (env : environment) (this : bundler) (r1 r2 : reference) (between : list reference) :
  isRelative (workflowsPath r1) = true -> isRelative (workflowsPath r2) = true ->
  sourcePathOf env r1 ≠ sourcePathOf env r2 ->
  baseOf r1 = baseOf r2 ->
  in_workflowsBundles (workflowsBundles this) (baseOf r1) = false ->
  let later := snd (rewrite_all env between (snd (rewrite_one env r1 this))) in
  fst (rewrite_one env r1 this) = Return (bundleTargetPath (baseOf r1)) /\
  (exists k,
     1 <= k /\
     fst (rewrite_one env r2 later) = Return (bundleTargetPath (suffixed (baseOf r1) k)) /\
     blocked (workflowsBundles later) (sourcePathOf env r2) (suffixed (baseOf r1) k) = false /\
     forall m, 1 <= m < k ->
       blocked (workflowsBundles later) (sourcePathOf env r2) (suffixed (baseOf r1) m) = true) /\
  fst (rewrite_one env r1 this) ≠ fst (rewrite_one env r2 later).
Proof.
  intros H1 H2 Hsrc Hbase Hfree later.
  assert (allocated (workflowsBundles this) (baseOf r1) (sourcePathOf env r1) (baseOf r1))
    as Hbase_free.
  { exists 0. split; [reflexivity|]. split; [|intros i Hi; lia].
    unfold blocked. rewrite Hfree. reflexivity. }
  destruct (rewrite_one_relative env r1 this H1) as (id1 & Ha1 & Heq1).
  assert (id1 = baseOf r1) as -> by exact (allocated_unique _ _ _ _ _ Ha1 Hbase_free).
  split; [|split].
  3: { apply different_sources_different_targets; assumption. }
  - rewrite Heq1. reflexivity.
  - assert (settled (workflowsBundles later) (baseOf r1) (sourcePathOf env r1) (baseOf r1))
      as (_ & _ & Hheld & _).
    { subst later. apply run_from_settled. rewrite Heq1. cbn [snd workflowsBundles assign_workflowsBundle].
      apply allocated_insert_settled. exact Ha1. }
    destruct (rewrite_one_relative env r2 later H2) as (id2 & (k & -> & Hfree2 & Hbefore) & Heq2).
    rewrite <- Hbase in *.
    destruct k as [|k].
    + exfalso. change (candidate (baseOf r1) 0) with (baseOf r1) in Hfree2.
      rewrite (blocked_own _ _ _ _ Hheld) in Hfree2. cbn [Entry.sourcePath] in Hfree2.
      apply negb_false_iff, bool_decide_eq_true in Hfree2. contradiction.
    + exists (S k). split; [lia|]. split; [exact (f_equal fst Heq2)|]. split; [exact Hfree2|].
      intros m Hm. destruct m as [|m]; [lia|]. apply (Hbefore (S m)). lia.
Qed.

Lemma same_base_distinct_identifiers_witness :
  let r1 := ref "./workflows" "/app/a/worker.ts" in
  let r2 := ref "./workflows" "/app/b/worker.ts" in
  let later := snd (rewrite_all appEnv [] (snd (rewrite_one appEnv r1 appBundler))) in
  fst (rewrite_one appEnv r1 appBundler) = Return (bundleTargetPath (baseOf r1)) /\
  (exists k,
     1 <= k /\
     fst (rewrite_one appEnv r2 later) = Return (bundleTargetPath (suffixed (baseOf r1) k)) /\
     blocked (workflowsBundles later) (sourcePathOf appEnv r2) (suffixed (baseOf r1) k) = false /\
     forall m, 1 <= m < k ->
       blocked (workflowsBundles later) (sourcePathOf appEnv r2) (suffixed (baseOf r1) m) = true) /\
  fst (rewrite_one appEnv r1 appBundler) ≠ fst (rewrite_one appEnv r2 later).
Proof.
  apply (same_base_distinct_identifiers appEnv appBundler
           (ref "./workflows" "/app/a/worker.ts") (ref "./workflows" "/app/b/worker.ts") []).
  - reflexivity.
  - reflexivity.
  - vm_compute. discriminate.
  - reflexivity.
  - reflexivity.
Defined.

Example same_base_two_files :
  fst (rewrite_all appEnv [ ref "./workflows" "/app/a/worker.ts";
                            ref "./workflows" "/app/b/worker.ts" ] appBundler)
  = [Return "./workflows.workflowbundle.js"; Return "./workflows-1.workflowbundle.js"].
Proof. vm_compute. reflexivity. Qed.

(** C3 as stated fails when the base identifier is already taken
    when the first of the two references arrives: after [a] and [a-1]
    have been allocated to two files named [a], the first of two files
    named [a-1] does not keep its base identifier [a-1]. *)
Lemma first_reference_loses_base :
  let this := snd (rewrite_all appEnv [ref "./a" "/app/x/w.ts"; ref "./a" "/app/y/w.ts"]
                     appBundler) in
  let r1 := ref "./a-1" "/app/z/w.ts" in
  let r2 := ref "./a-1" "/app/w/w.ts" in
  isRelative (workflowsPath r1) = true /\ isRelative (workflowsPath r2) = true /\
  sourcePathOf appEnv r1 ≠ sourcePathOf appEnv r2 /\
  baseOf r1 = "a-1" /\ baseOf r2 = "a-1" /\
  fst (rewrite_all appEnv [r1; r2] this)
    = [Return "./a-1-1.workflowbundle.js"; Return "./a-1-2.workflowbundle.js"] /\
  fst (rewrite_one appEnv r1 this) ≠ Return (bundleTargetPath (baseOf r1)).
Proof. vm_compute. repeat split; discriminate. Qed.

(** The names a plain object inherits count as taken too. *)
Example inherited_name_is_passed_over :
  fst (rewrite_all appEnv [ ref "./constructor" "/app/a/worker.ts";
                            ref "./constructor" "/app/b/worker.ts" ] appBundler)
  = [Return "./constructor-1.workflowbundle.js"; Return "./constructor-2.workflowbundle.js"].
Proof. vm_compute. reflexivity. Qed.

End RewriterClaims.

(** ** The externalization classifier *)

Section Classifier.
Import JsString Bundler Spec.
Variable env : environment.

Lemma matchRawRequest_eq request this :
  exists evs,
    matchRawRequest request this = (Return (rawAnswer this request), this, evs) /\
    Forall engine_event evs.
Proof.
  unfold matchRawRequest, rawAnswer, bind, get.
  destruct (some_pattern_matches (externalDepsPatterns this) request).
  - destruct (RegExp.test relativeRequest request); cbn.
    + exists []. split; [reflexivity | constructor].
    + eexists. split; [reflexivity|]. repeat constructor.
  - exists []. split; [reflexivity | constructor].
Qed.

(** The classifier, case by case. *)
Lemma extractDependencies_cases context request this :
  extractDependencies env context request this =
  match resolve_request env context request with
  | None => matchRawRequest request this
  | Some resolvedPath =>
      match findPackageRoot (fs env) resolvedPath with
      | Throw _ => matchRawRequest request this
      | Diverge => (Diverge, this, [])
      | Return packageRoot =>
          match foreignRoot this packageRoot with
          | None => matchRawRequest request this
          | Some root =>
              match require_descriptor env (root +:+ "/package.json") with
              | None => matchRawRequest request this
              | Some descriptor =>
                  if some_pattern_matches (externalDepsPatterns this)
                       (to_String (name descriptor))
                  then (Return (Some ("commonjs " +:+ request)),
                        set_dependency this (to_String (name descriptor))
                          (to_String (version descriptor)),
                        [])
                  else (Return None, this, [])
              end
          end
      end
  end.
Proof.
  assert (forall m : M (option string), (let '(o, this'', evs') := m this in (o, this'', [] ++ evs')) = m this)
    as Hnil by (intros m; now destruct (m this) as [[? ?] ?]).
  unfold extractDependencies, classifyResolved, try_catch, bind, get, throw, diverge, ret, put.
  destruct (resolve_request env context request) as [resolvedPath|]; [|apply Hnil].
  destruct (findPackageRoot (fs env) resolvedPath) as [packageRoot|e|]; [|apply Hnil|reflexivity].
  destruct (foreignRoot this packageRoot) as [root|]; [|apply Hnil].
  destruct (require_descriptor env (root +:+ "/package.json")) as [descriptor|]; [|apply Hnil].
  destruct (some_pattern_matches _ _); reflexivity.
Qed.


Lemma rules_kept_refl this : rules_kept this this.
Proof. repeat split. Qed.

Lemma rules_kept_trans a b c : rules_kept a b -> rules_kept b c -> rules_kept a c.
Proof. unfold rules_kept. intros (?&?&?&?) (?&?&?&?). repeat split; congruence. Qed.

Lemma boundary_record_kept this this' context request :
  rules_kept this this' ->
  boundary_record env this' context request = boundary_record env this context request.
Proof.
  intros (_ & _ & Hroot & Hpat). unfold boundary_record, foreignRoot. now rewrite Hroot, Hpat.
Qed.

Lemma records_of_kept this this' requests :
  rules_kept this this' -> records_of env this' requests = records_of env this requests.
Proof.
  intros Hk. induction requests as [|cr rest IH]; [reflexivity|].
  cbn [records_of]. now rewrite IH, (boundary_record_kept this this').
Qed.

(** What one classification does to the object: it records what
    [boundary_record] says and never raises. *)
Lemma extractDependencies_effect context request this :
  exists o evs this',
    extractDependencies env context request this = (o, this', evs) /\
    (forall e, o ≠ Throw e) /\
    dependenciesOf this' = record_one (boundary_record env this context request)
                             (dependenciesOf this) /\
    workflowsBundles this' = workflowsBundles this /\
    rules_kept this this' /\
    Forall engine_event evs.
Proof.
  rewrite extractDependencies_cases. unfold boundary_record.
  destruct (matchRawRequest_eq request this) as (evs & Hraw & Hevs).
  assert (exists o evs0 this',
            matchRawRequest request this = (o, this', evs0) /\ (forall e, o ≠ Throw e) /\
            dependenciesOf this' = record_one None (dependenciesOf this) /\
            workflowsBundles this' = workflowsBundles this /\
            rules_kept this this' /\ Forall engine_event evs0) as Hfallback.
  { exists (Return (rawAnswer this request)), evs, this.
    repeat split; [exact Hraw | discriminate | exact Hevs]. }
  destruct (resolve_request env context request) as [resolvedPath|]; [|exact Hfallback].
  destruct (findPackageRoot (fs env) resolvedPath) as [packageRoot|e|]; [|exact Hfallback|].
  - destruct (foreignRoot this packageRoot) as [root|]; [|exact Hfallback].
    destruct (require_descriptor env (root +:+ "/package.json")) as [descriptor|];
      [|exact Hfallback].
    destruct (some_pattern_matches _ _).
    + eexists _, _, _. split; [reflexivity|]. split; [discriminate|].
      split; [|repeat split; constructor].
      unfold dependenciesOf, set_dependency, assign_string. cbn.
      now destruct (bool_decide (to_String (name descriptor) = "__proto__")).
    + eexists _, _, _. split; [reflexivity|]. repeat split; [discriminate | constructor].
  - eexists _, _, _. split; [reflexivity|]. repeat split; [discriminate | constructor].
Qed.

(** The rewriter touches neither the rules nor the dependencies. *)
Lemma workflowsTransform_effect workflowsPath filename this :
  exists o this',
    workflowsTransform env workflowsPath filename this = (o, this', []) /\
    dependenciesOf this' = dependenciesOf this /\
    rules_kept this this'.
Proof.
  destruct (isRelative workflowsPath) eqn:Hrel.
  - destruct (workflowsTransform_relative env workflowsPath filename this Hrel)
      as (id & _ & ->).
    eexists _, _. split; [reflexivity|]. repeat split.
  - rewrite (workflowsTransform_not_relative env workflowsPath filename this Hrel).
    eexists _, _. split; [reflexivity|]. repeat split.
Qed.

Lemma record_all_cons record records deps :
  record_all (record :: records) deps = record_all records (<[fst record := snd record]> deps).
Proof. reflexivity. Qed.

(** The dependencies after a run of the engine are those recorded
    for the requests it asked, in order. *)
Lemma run_engine_effect (e : engine) :
  forall this,
  exists o this' evs,
    run_engine env e this = (o, this', evs) /\
    dependenciesOf this'
    = record_all (records_of env this (asked env e this)) (dependenciesOf this) /\
    rules_kept this this' /\
    Forall engine_event evs.
Proof.
  induction e as [err st | | path next IH | path next IH | workflowsPath filename next IH
                 | context request next IH]; intros this.
  - eexists _, _, _. split; [reflexivity|]. repeat split. constructor.
  - eexists _, _, _. split; [reflexivity|]. repeat split. constructor.
  - destruct (IH this) as (o & this' & evs & Hrun & Hdeps & Hk & Hevs).
    cbn [run_engine asked]. unfold bind, emit. rewrite Hrun.
    destruct o; (eexists _, _, _; split; [reflexivity|]);
      (split; [exact Hdeps|]; split; [exact Hk|]; constructor; [exact I | exact Hevs]).
  - destruct (IH this) as (o & this' & evs & Hrun & Hdeps & Hk & Hevs).
    cbn [run_engine asked]. unfold bind, emit. rewrite Hrun.
    destruct o; (eexists _, _, _; split; [reflexivity|]);
      (split; [exact Hdeps|]; split; [exact Hk|]; constructor; [exact I | exact Hevs]).
  - destruct (workflowsTransform_effect workflowsPath filename this)
      as (a & this1 & Hhook & Hdeps1 & Hk1).
    cbn [run_engine asked]. unfold bind at 1. unfold attempt. rewrite Hhook.
    destruct a as [answer | e | ].
    + destruct (IH (Return answer) this1) as (o & this' & evs & Hrun & Hdeps & Hk & Hevs).
      rewrite Hrun. eexists _, _, _. split; [reflexivity|].
      rewrite Hdeps, Hdeps1, (records_of_kept this this1) by exact Hk1.
      split; [reflexivity|]. split; [exact (rules_kept_trans _ _ _ Hk1 Hk) | exact Hevs].
    + destruct (IH (Throw e) this1) as (o & this' & evs & Hrun & Hdeps & Hk & Hevs).
      rewrite Hrun. eexists _, _, _. split; [reflexivity|].
      rewrite Hdeps, Hdeps1, (records_of_kept this this1) by exact Hk1.
      split; [reflexivity|]. split; [exact (rules_kept_trans _ _ _ Hk1 Hk) | exact Hevs].
    + eexists _, _, _. split; [reflexivity|]. cbn [records_of record_all fold_left].
      split; [exact Hdeps1|]. split; [exact Hk1 | constructor].
  - destruct (extractDependencies_effect context request this)
      as (a & evs1 & this1 & Hhook & Hnothrow & Hdeps1 & _ & Hk1 & Hevs1).
    cbn [run_engine asked]. unfold bind at 1. rewrite Hhook.
    destruct a as [answer | e | ].
    + destruct (IH answer this1) as (o & this' & evs & Hrun & Hdeps & Hk & Hevs).
      rewrite Hrun. eexists _, _, _. split; [reflexivity|].
      split; [|split; [exact (rules_kept_trans _ _ _ Hk1 Hk) | now apply Forall_app]].
      rewrite Hdeps, Hdeps1, (records_of_kept this this1) by exact Hk1.
      cbn [records_of fst snd].
      destruct (boundary_record env this context request) as [[n v]|]; reflexivity.
    + now destruct (Hnothrow e).
    + eexists _, _, _. split; [reflexivity|].
      split; [|split; [exact Hk1 | exact Hevs1]].
      rewrite Hdeps1. cbn [records_of fst snd].
      destruct (boundary_record env this context request) as [[n v]|]; reflexivity.
Qed.

End Classifier.

(** ** The order of the entries *)

Section PropertyOrder.
Import JsString Bundler Spec.

Lemma filter_none {A} (P : A -> Prop) `{forall x, Decision (P x)} (l : list A) :
  (forall x, x ∈ l -> ¬ P x) -> filter P l = [].
Proof.
  induction l as [|x l IH]; intros Hl; [reflexivity|].
  rewrite filter_cons, decide_False by (apply Hl, list_elem_of_here).
  apply IH. intros y Hy. apply Hl. now apply list_elem_of_further.
Qed.

Lemma filter_all {A} (P : A -> Prop) `{forall x, Decision (P x)} (l : list A) :
  (forall x, x ∈ l -> P x) -> filter P l = l.
Proof.
  induction l as [|x l IH]; intros Hl; [reflexivity|].
  rewrite filter_cons, decide_True by (apply Hl, list_elem_of_here).
  f_equal. apply IH. intros y Hy. apply Hl. now apply list_elem_of_further.
Qed.

Lemma remove_dups_NoDup (l : list string) : NoDup l -> remove_dups l = l.
Proof.
  induction 1 as [|x l Hx _ IH]; [reflexivity|].
  cbn [remove_dups]. destruct (decide_rel elem_of x l); [contradiction | now rewrite IH].
Qed.

Lemma insert_index_Permutation k l : insert_index k l ≡ₚ k :: l.
Proof.
  induction l as [|k' l IH]; [reflexivity|]. cbn [insert_index].
  destruct (fst k <=? fst k')%N; [reflexivity|].
  rewrite IH. apply perm_swap.
Qed.

Lemma sort_indices_Permutation l : sort_indices l ≡ₚ l.
Proof.
  induction l as [|k l IH]; [reflexivity|].
  unfold sort_indices in *. cbn [foldr]. now rewrite insert_index_Permutation, IH.
Qed.

Lemma indices_filter (keys : list string) :
  snd <$> omap (fun k => (fun n => (n, k)) <$> array_index k) keys
  = filter (fun k => is_Some (array_index k)) keys.
Proof.
  induction keys as [|k keys IH]; [reflexivity|].
  cbn [omap list_omap]. rewrite filter_cons.
  destruct (array_index k) as [n|]; cbn [fmap option_fmap option_map].
  - rewrite decide_True by eauto. cbn [fmap list_fmap snd]. now rewrite <- IH.
  - rewrite decide_False by (intros [? [=]]). exact IH.
Qed.

(** The keys in property order are the keys of the table, each once. *)
Lemma own_keys_Permutation (wb : gmap string Entry.entry) created :
  own_keys wb created ≡ₚ (map_to_list wb).*1.
Proof.
  unfold own_keys. rewrite sort_indices_Permutation, indices_filter, filter_app_complement.
  assert (forall k, k ∈ (map_to_list wb).*1 <-> is_Some (wb !! k)) as Hkey.
  { intros k. rewrite list_elem_of_fmap. split.
    - intros ([k' e] & -> & Hin). apply elem_of_map_to_list in Hin. eauto.
    - intros [e He]. exists (k, e). split; [reflexivity | now apply elem_of_map_to_list]. }
  apply NoDup_Permutation.
  - apply NoDup_app. split; [apply NoDup_remove_dups|]. split.
    + intros k Hk Hk'. apply elem_of_remove_dups, list_elem_of_filter in Hk.
      apply list_elem_of_filter in Hk'. tauto.
    + apply NoDup_filter, NoDup_fst_map_to_list.
  - apply NoDup_fst_map_to_list.
  - intros k. rewrite elem_of_app, elem_of_remove_dups, !list_elem_of_filter, Hkey.
    destruct (decide (k ∈ created)); tauto.
Qed.

Lemma lookup_keys (wb : gmap string Entry.entry) :
  omap (fun k => wb !! k) (map_to_list wb).*1 = (map_to_list wb).*2.
Proof.
  assert (forall l : list (string * Entry.entry),
            (forall k e, (k, e) ∈ l -> wb !! k = Some e) ->
            omap (fun k => wb !! k) l.*1 = l.*2) as Hl.
  { induction l as [|[k e] l IH]; intros Hin; [reflexivity|].
    cbn [fmap list_fmap omap list_omap fst snd].
    rewrite (Hin k e) by apply list_elem_of_here.
    f_equal. apply IH. intros k' e' H. apply Hin. now apply list_elem_of_further. }
  apply Hl. intros k e. apply elem_of_map_to_list.
Qed.

(** [Object.values] lists every entry of the table once. *)
Lemma Object_values_Permutation (this : bundler) :
  Object_values this ≡ₚ snd <$> map_to_list (workflowsBundles this).
Proof.
  unfold Object_values. rewrite own_keys_Permutation. now rewrite lookup_keys.
Qed.

Lemma assign_workflowsBundle_recorded this id entry :
  creations_recorded this -> creations_recorded (assign_workflowsBundle this id entry).
Proof.
  intros [Hnd Hkeys]. unfold creations_recorded, assign_workflowsBundle.
  cbn [workflowsBundlesCreated workflowsBundles].
  destruct (decide (is_Some (workflowsBundles this !! id))) as [Hid | Hid].
  - rewrite bool_decide_eq_true_2 by exact Hid. split; [exact Hnd|].
    intros k. rewrite Hkeys. destruct (decide (k = id)) as [-> | Hne].
    + rewrite lookup_insert_eq. split; eauto.
    + now rewrite lookup_insert_ne.
  - rewrite bool_decide_eq_false_2 by exact Hid. split.
    + apply NoDup_app. split; [exact Hnd|]. split; [|apply NoDup_singleton].
      intros k Hk ->%list_elem_of_singleton. apply Hid, Hkeys, Hk.
    + intros k. rewrite elem_of_app, list_elem_of_singleton, Hkeys.
      destruct (decide (k = id)) as [-> | Hne].
      * rewrite lookup_insert_eq. split; eauto.
      * rewrite lookup_insert_ne by congruence. tauto.
Qed.

(** With an exact record of creations the property order is: the
    array indices in ascending order, then the other keys in the
    order of their creation. *)
Lemma own_keys_recorded this :
  creations_recorded this ->
  own_keys (workflowsBundles this) (workflowsBundlesCreated this)
  = (snd <$> sort_indices (omap (fun k => (fun n => (n, k)) <$> array_index k)
                            (workflowsBundlesCreated this)))
    ++ filter (fun k => ¬ is_Some (array_index k)) (workflowsBundlesCreated this).
Proof.
  intros [Hnd Hkeys]. unfold own_keys.
  rewrite (filter_none (fun k => k ∉ workflowsBundlesCreated this)).
  - rewrite app_nil_r, filter_all by (intros k; apply Hkeys).
    now rewrite remove_dups_NoDup.
  - intros k Hk Hnot. apply Hnot, Hkeys.
    apply list_elem_of_fmap in Hk as ([k' e] & -> & Hin).
    apply elem_of_map_to_list in Hin. eauto.
Qed.

End PropertyOrder.

(** ** The main build and the orchestration *)

Section Orchestration.
Import JsString Bundler Spec.
Variable env : environment.

Lemma lookup_record_all records :
  forall deps n,
    record_all records deps !! n
    = match latest n records with
      | Some v => Some v
      | None => deps !! n
      end.
Proof.
  induction records as [|[n0 v0] rest IH]; intros deps n; [reflexivity|].
  rewrite record_all_cons, IH. cbn [latest fst snd].
  destruct (latest n rest); [reflexivity|].
  destruct (decide (n0 = n)) as [-> | Hne].
  - rewrite bool_decide_eq_true_2 by reflexivity. apply lookup_insert_eq.
  - rewrite bool_decide_eq_false_2 by exact Hne. now apply lookup_insert_ne.
Qed.

Lemma console_lines_effect hasError ls this :
  exists evs, console_lines hasError ls this = (Return tt, this, evs) /\ Forall engine_event evs.
Proof.
  induction ls as [|line rest (evs & IH & Hevs)].
  - exists []. split; [reflexivity | constructor].
  - cbn [console_lines]. unfold bind at 1. unfold emit. rewrite IH.
    eexists. split; [reflexivity|]. constructor; [now destruct hasError | exact Hevs].
Qed.

(** The callback of [compiler.run] settles the promise: it resolves
    or rejects, and leaves the object as it is. *)
Lemma run_callback_effect err st this :
  exists o evs,
    run_callback err st this = (o, this, evs) /\ o ≠ Diverge /\ Forall engine_event evs.
Proof.
  unfold run_callback. destruct st as [s|].
  - destruct (console_lines_effect (hasErrors s) (lines s) this) as (evs & Hlines & Hevs).
    unfold bind, ret, throw. rewrite Hlines.
    destruct (hasErrors s); [|destruct err];
      (eexists _, _; split; [reflexivity|]; split; [discriminate|]);
      rewrite !app_nil_r; exact Hevs.
  - unfold bind, ret, throw.
    destruct err; (eexists _, _; split; [reflexivity|]; split; [discriminate | constructor]).
Qed.

Lemma close_compiler_effect c this :
  close_compiler c this
  = (match close c with Some e => Throw e | None => Return tt end, this, [CompilerClose]).
Proof. unfold close_compiler, bind, emit. now destruct (close c). Qed.

(** [bundleWorker] once the compiler exists, computed from the run of
    the engine. *)
Lemma bundleWorker_eq entry target this c :
  webpack env entry target = Some c ->
  bundleWorker env entry target this =
  match run_engine env (run c) this with
  | (Return result, this', revs) =>
      (after_close c (fst (fst (run_callback (fst result) (snd result) this'))),
       this',
       CompilerRun :: (revs ++ snd (run_callback (fst result) (snd result) this'))
         ++ [CompilerClose])
  | (Throw e, this', revs) =>
      (after_close c (Throw e), this', CompilerRun :: revs ++ [CompilerClose])
  | (Diverge, this', revs) => (Diverge, this', CompilerRun :: revs)
  end.
Proof.
  intros Hc. unfold bundleWorker. rewrite Hc.
  unfold try_finally, bind at 1, emit. unfold bind at 1.
  destruct (run_engine env (run c) this) as [[ro this'] revs].
  destruct ro as [result | e | ]; [| |reflexivity].
  - destruct (run_callback_effect (fst result) (snd result) this') as (o & cevs & -> & Hnd & _).
    rewrite close_compiler_effect. unfold after_close. cbn [fst snd].
    destruct o as [[] | e | ]; [| |contradiction]; now destruct (close c).
  - rewrite close_compiler_effect. unfold after_close. now destruct (close c).
Qed.

(** [bundleWorker] ends exactly when the run of the engine ends, and
    then the release of the compiler is the last thing that happened. *)
Lemma bundleWorker_effect entry target this c :
  webpack env entry target = Some c ->
  exists o ro this' revs,
    run_engine env (run c) this = (ro, this', revs) /\
    ((ro = Diverge /\ bundleWorker env entry target this = (Diverge, this', CompilerRun :: revs)) \/
     (ro ≠ Diverge /\ o ≠ Diverge /\
      exists cevs,
        Forall engine_event cevs /\
        bundleWorker env entry target this
        = (o, this', CompilerRun :: (revs ++ cevs) ++ [CompilerClose]))).
Proof.
  intros Hc. rewrite (bundleWorker_eq entry target this c Hc).
  destruct (run_engine env (run c) this) as [[ro this'] revs].
  destruct ro as [result | e | ].
  - destruct (run_callback_effect (fst result) (snd result) this') as (o & cevs & -> & Hnd & Hc').
    exists (after_close c o), (Return result), this', revs.
    split; [reflexivity|]. right. split; [discriminate|].
    split; [unfold after_close; now destruct (close c)|].
    exists cevs. split; [exact Hc' | reflexivity].
  - exists (after_close c (Throw e)), (Throw e), this', revs.
    split; [reflexivity|]. right. split; [discriminate|].
    split; [unfold after_close; now destruct (close c)|].
    exists []. split; [constructor|]. now rewrite app_nil_r.
  - exists Diverge, Diverge, this', revs. split; [reflexivity|]. left. auto.
Qed.

(** C6: on every execution of [bundleWorker] that has a compiler,
    whether the run succeeds or fails, the release of the compiler is
    the last thing that happens before [bundleWorker] returns or
    raises, and it happens once, after the whole run; [bundleWorker]
    does not end only when the run itself never ends.  When
    [webpack(config)] raises there is no compiler, and nothing has
    happened. *)
Theorem bundleWorker_releases_compiler (entry target : string) (this : bundler) :
  match webpack env entry target with
  | None =>
      bundleWorker env entry target this = (Throw "Invalid configuration object", this, [])
  | Some c =>
      exists o this' evs,
        bundleWorker env entry target this = (o, this', evs) /\
        ((o = Diverge /\ fst (fst (run_engine env (run c) this)) = Diverge) \/
         (o ≠ Diverge /\
          exists during,
            evs = CompilerRun :: during ++ [CompilerClose] /\ Forall engine_event during))
  end.
Proof.
  destruct (webpack env entry target) as [c|] eqn:Hc.
  - destruct (bundleWorker_effect entry target this c Hc)
      as (o & ro & this' & revs & Hrun & [[-> Heq] | (Hro & Ho & cevs & Hcevs & Heq)]).
    + eexists _, _, _. split; [exact Heq|]. left. now rewrite Hrun.
    + eexists _, _, _. split; [exact Heq|]. right. split; [exact Ho|].
      exists (revs ++ cevs). split; [reflexivity|].
      apply Forall_app. split; [|exact Hcevs].
      destruct (run_engine_effect env (run c) this) as (? & ? & ? & Hrun' & _ & _ & Hevs).
      rewrite Hrun in Hrun'. now injection Hrun' as _ _ <-.
  - unfold bundleWorker. now rewrite Hc.
Qed.

Lemma writeFileSync_effect path content this :
  writeFileSync env path content this
  = if writable env path then (Return tt, this, [WriteFile path content])
    else (Throw "EACCES: permission denied, open", this, []).
Proof. unfold writeFileSync. now destruct (writable env path). Qed.

Lemma written_manifests_app evs evs' :
  written_manifests (evs ++ evs') = written_manifests evs ++ written_manifests evs'.
Proof.
  induction evs as [|ev evs IH]; [reflexivity|].
  cbn [app written_manifests]. rewrite IH. now destruct ev as [| | | | | | |? []].
Qed.

Lemma written_manifests_engine evs : Forall engine_event evs -> written_manifests evs = [].
Proof.
  induction 1 as [|ev evs Hev _ IH]; [reflexivity|].
  cbn [written_manifests]. rewrite IH. now destruct ev.
Qed.

(** The workflow artifacts: the object is left as it is, and no
    manifest is written. *)
Lemma bundleWorkflows_each_effect targetDirectory definitions this :
  exists o evs,
    bundleWorkflows_each env targetDirectory definitions this = (o, this, evs) /\
    written_manifests evs = [].
Proof.
  induction definitions as [|d rest (o & evs & IH & Hm)].
  - exists (Return tt), []. split; reflexivity.
  - cbn [bundleWorkflows_each]. unfold bind at 1. unfold emit. unfold bind at 1.
    destruct (bundleWorkflowCode env (Entry.sourcePath d)) as [code|].
    + unfold bind at 1. rewrite writeFileSync_effect.
      destruct (writable env _).
      * rewrite IH. eexists _, _. split; [reflexivity|].
        cbn [app written_manifests]. exact Hm.
      * eexists _, _. split; [reflexivity | reflexivity].
    + eexists _, _. split; [reflexivity | reflexivity].
Qed.

(** A failed main build ends [bundle]: no later phase runs. *)
Lemma bundle_main_build_fails this e this' evs :
  bundleWorker env (entrypointPath this) (targetPath this) this = (Throw e, this', evs) ->
  bundle env this = (Throw e, this', evs).
Proof. intros H. unfold bundle, bind, get. now rewrite H. Qed.

(** A completed [bundle]: the three phases in order, the manifest
    last. *)
Lemma bundle_returns this this' evs :
  bundle env this = (Return tt, this', evs) ->
  exists wevs bevs,
    bundleWorker env (entrypointPath this) (targetPath this) this = (Return tt, this', wevs) /\
    written_manifests bevs = [] /\
    evs = wevs ++ bevs ++
          [WriteFile (Path.dirname (targetPath this) +:+ "/package.json")
             (Json (packageJson this'))].
Proof.
  unfold bundle, bind at 1, get. unfold bind at 1.
  destruct (bundleWorker env (entrypointPath this) (targetPath this) this)
    as [[[[]|e|] s] wevs]; [|discriminate..].
  unfold bind at 1, bundleWorkflows. unfold bind at 1, get.
  destruct (bundleWorkflows_each_effect (Path.dirname (targetPath this))
              (Object_values s) s) as (o & bevs & -> & Hm).
  destruct o as [[]|e|]; [|discriminate..].
  unfold generatePackageJson, bind, get. rewrite writeFileSync_effect.
  destruct (writable env _); [|discriminate].
  cbn [app]. intros [= <- <-]. exists wevs, bevs. auto.
Qed.

Lemma bundleWorker_writes_nothing entry target this o this' evs :
  bundleWorker env entry target this = (o, this', evs) ->
  Forall (fun ev => is_write ev = false) evs /\ written_manifests evs = [].
Proof.
  intros Heq.
  assert (forall l, Forall engine_event l -> Forall (fun ev => is_write ev = false) l) as Hq.
  { intros l Hl. eapply Forall_impl; [exact Hl|]. now intros []. }
  destruct (webpack env entry target) as [c|] eqn:Hc.
  - destruct (bundleWorker_effect entry target this c Hc)
      as (o' & ro & s & revs & Hrun & [[-> Heq'] | (_ & _ & cevs & Hcevs & Heq')]);
      rewrite Heq in Heq'; injection Heq' as _ _ ->;
      destruct (run_engine_effect env (run c) this) as (? & ? & ? & Hrun' & _ & _ & Hevs);
      rewrite Hrun in Hrun'; injection Hrun' as _ _ <-.
    + split; [constructor; [reflexivity | now apply Hq]|].
      cbn [written_manifests]. now apply written_manifests_engine.
    + split.
      * constructor; [reflexivity|]. rewrite !Forall_app. repeat split; auto.
      * cbn [written_manifests]. rewrite !written_manifests_app.
        rewrite (written_manifests_engine _ Hevs), (written_manifests_engine _ Hcevs).
        reflexivity.
  - unfold bundleWorker in Heq. rewrite Hc in Heq. injection Heq as _ _ <-.
    split; [constructor | reflexivity].
Qed.

(** C7, amended: after a completed [bundle()] run exactly one
    manifest has been written; its dependencies are those the object
    started with (none for a new object) with one key per package
    name recorded for a request that resolved into a package boundary
    and was externalized, mapped to the version declared by the
    boundary of the last such request under that name; a request
    externalized by the raw-request match records nothing. *)
Theorem manifest_lists_boundary_records (this this' : bundler) (evs : list event) :
  bundle env this = (Return tt, this', evs) ->
  exists c,
    webpack env (entrypointPath this) (targetPath this) = Some c /\
    written_manifests evs = [packageJson this'] /\
    dependenciesOf this'
    = record_all (records_of env this (asked env (run c) this)) (dependenciesOf this) /\
    forall n,
      dependenciesOf this' !! n
      = match latest n (records_of env this (asked env (run c) this)) with
        | Some v => Some v
        | None => dependenciesOf this !! n
        end.
Proof.
  intros Hb. destruct (bundle_returns this this' evs Hb) as (wevs & bevs & Hw & Hm & ->).
  destruct (webpack env (entrypointPath this) (targetPath this)) as [c|] eqn:Hc.
  - exists c. split; [reflexivity|].
    destruct (bundleWorker_writes_nothing _ _ _ _ _ _ Hw) as (_ & Hwm).
    assert (dependenciesOf this'
            = record_all (records_of env this (asked env (run c) this)) (dependenciesOf this))
      as Hdeps.
    { destruct (bundleWorker_effect _ _ this c Hc)
        as (o' & ro & s & revs & Hrun & [[-> Heq'] | (_ & _ & cevs & _ & Heq')]);
        rewrite Hw in Heq'; [discriminate|]. injection Heq' as _ <- _.
      destruct (run_engine_effect env (run c) this) as (? & ? & ? & Hrun' & Hd & _).
      rewrite Hrun in Hrun'. now injection Hrun' as _ <- _. }
    split; [|split; [exact Hdeps|]].
    + rewrite !written_manifests_app, Hwm, Hm. reflexivity.
    + intros n. rewrite Hdeps. apply lookup_record_all.
  - unfold bundleWorker in Hw. rewrite Hc in Hw. discriminate Hw.
Qed.

End Orchestration.

(** ** The statements on the sample application *)

Section SampleRuns.
Import JsString Bundler Spec Samples.




(** C5 fails on a literal with a metacharacter: no character is
    escaped, so the dot of [lodash.merge] matches any character. *)
Lemma literal_rule_matches_other_strings :
  match toRegExp (inl "lodash.merge") with
  | Some (Return re) =>
      RegExp.test re "lodash.merge" = true /\
      RegExp.test re "lodash-merge" = true /\
      "lodash-merge" ≠ "lodash.merge"
  | _ => False
  end.
Proof. vm_compute. split; [reflexivity|]. split; [reflexivity | discriminate]. Qed.

Example literal_rule_does_not_match_itself :
  match toRegExp (inl "a+b") with
  | Some (Return re) => RegExp.test re "a+b" = false /\ RegExp.test re "aab" = true
  | _ => False
  end.
Proof. vm_compute. split; reflexivity. Qed.

(** What [new RegExp] does with a source: sources of the core syntax
    that are no pattern raise a SyntaxError; for sources outside the
    fragment of the parser the model has no answer. *)
Example new_RegExp_samples :
  Forall (fun source => RegExp.new source = RegExp.SyntaxError)
    [ "^*"; "a**"; "("; ")"; "a|*"; "$+"; "(*)"; "^c++$" ] /\
  Forall (fun source => RegExp.new source = RegExp.Unsupported)
    [ "a{2}"; "a{"; "}"; "pkg\d"; "\w+"; "a]"; "a+?"; "a??"; "(?=a)b"; "(?<n>a)"; "[z-a]"; "[]]" ] /\
  Forall (fun source => match RegExp.new source with RegExp.Compiled _ => True | _ => False end)
    [ ""; "^$"; "a|"; "()"; "(?:a|b)*c"; "[^a-z0-9]+"; "^@scope[/]name$"; "\.\*"; "[\]]"; "[^]" ].
Proof.
  split; [|split]; repeat (constructor; [vm_compute; try reflexivity; exact I|]); constructor.
Qed.

Example literal_rule_not_compiled :
  toRegExp (inl "c++") = Some (Throw "SyntaxError: Invalid regular expression").
Proof. vm_compute. reflexivity. Qed.

(** A successful run and a failed one: the compiler is released last
    in both. *)
Example bundleWorker_success :
  bundleWorker (appEnvWith (quiet (rewritingEngine "./workflows")))
    "/app/src/worker.ts" "/app/dist/worker.js" appBundler
  = (Return tt,
     assign_workflowsBundle appBundler "workflows"
       (Entry.mkEntry "/app/src/workflows" "./workflows.workflowbundle.js"),
     [ CompilerRun; ModuleRead "/app/src/worker.ts";
       ConsoleInfo "compiled successfully"; CompilerClose ]).
Proof. vm_compute. reflexivity. Qed.

Example bundleWorker_failure :
  bundleWorker (appEnvWith (Some {| run := Callback (Some "ENOSPC") None;
                                     close := Some "close failed" |}))
    "/app/src/worker.ts" "/app/dist/worker.js" appBundler
  = (Throw "close failed", appBundler, [CompilerRun; CompilerClose]).
Proof. vm_compute. reflexivity. Qed.

Lemma manifest_lists_boundary_records_witness :
  exists this' evs c,
    bundle (appEnvWith (quiet askingEngine)) appBundler = (Return tt, this', evs) /\
    webpack (appEnvWith (quiet askingEngine)) (entrypointPath appBundler)
      (targetPath appBundler) = Some c /\
    written_manifests evs = [packageJson this'] /\
    dependenciesOf this'
    = record_all (records_of (appEnvWith (quiet askingEngine)) appBundler
                    (asked (appEnvWith (quiet askingEngine)) (run c) appBundler))
        (dependenciesOf appBundler).
Proof.
  set (r := bundle (appEnvWith (quiet askingEngine)) appBundler).
  assert (r = (Return tt, snd (fst r), snd r)) as Hb by (vm_compute; reflexivity).
  destruct (manifest_lists_boundary_records (appEnvWith (quiet askingEngine))
              appBundler (snd (fst r)) (snd r) Hb) as (c & Hc & Hm & Hd & _).
  exists (snd (fst r)), (snd r), c. auto.
Defined.

(** C7 as stated fails when two package boundaries carry one name:
    [foo] is externalized at the boundary [/app/node_modules/foo],
    which declares 1.0.0, and the manifest maps [foo] to the 2.0.0 of
    the copy nested under [bar]. *)
Lemma manifest_version_of_other_boundary :
  let env := appEnvWith (quiet askingEngine) in
  boundary_record env appBundler "/app/src" "foo" = Some ("foo", "1.0.0") /\
  fst (fst (extractDependencies env "/app/src" "foo" appBundler))
  = Return (Some "commonjs foo") /\
  fst (fst (bundle env appBundler)) = Return tt /\
  (PackageJson.dependencies <$> written_manifests (snd (bundle env appBundler)))
  = [ {[ "foo" := "2.0.0" ]} ].
Proof. vm_compute. auto. Qed.

(** C8 fails on a base name with two runs of other characters: only
    the first run becomes a dash. *)
Lemma later_runs_not_collapsed :
  baseWorkflowsBundleId "./my.work.flows" = "my-work.flows".
Proof. vm_compute. reflexivity. Qed.

Example single_run_collapsed :
  baseWorkflowsBundleId "../jobs/_order--workflows_" = "order--workflows_".
Proof. vm_compute. reflexivity. Qed.

(** C9 fails on a base name with a capital letter: the target path
    the rewriter returns is not matched by the pattern for workflow
    bundles, and the classifier leaves the rewritten request inline. *)
Lemma rewritten_reference_not_externalized :
  fst (rewrite_one appEnv (ref "./Workflows" "/app/src/worker.ts") appBundler)
  = Return "./Workflows.workflowbundle.js" /\
  RegExp.test workflowBundlePattern "./Workflows.workflowbundle.js" = false /\
  fst (fst (extractDependencies appEnv "/app/src" "./Workflows.workflowbundle.js" appBundler))
  = Return None.
Proof. vm_compute. auto. Qed.

Example lowercase_reference_externalized :
  fst (rewrite_one appEnv (ref "./workflows" "/app/src/worker.ts") appBundler)
  = Return "./workflows.workflowbundle.js" /\
  fst (fst (extractDependencies appEnv "/app/src" "./workflows.workflowbundle.js" appBundler))
  = Return (Some "commonjs ./workflows.workflowbundle.js").
Proof. vm_compute. auto. Qed.

End SampleRuns.


(** * Further properties of the code *)

(** ** Patterns *)

Section PatternFacts.
Import JsString Bundler Spec.

(** A pattern that starts with [^] can only match at position 0. *)
Lemma exec_anchored (r : RegExp.node) (ic : bool) (inp : chars) :
  RegExp.exec_chars (RegExp.mkRegExp (RegExp.Seq RegExp.AssertStart r) ic) inp
  = (fun j => (0, j)) <$> head (RegExp.ends ic inp r 0).
Proof.
  unfold RegExp.exec_chars. cbn [RegExp.pattern RegExp.ignoreCase].
  change (seq 0 (S (length inp))) with (0 :: seq 1 (length inp)).
  assert (forall n k, omap (fun i => (fun j => (i, j)) <$>
                         head (RegExp.ends ic inp (RegExp.Seq RegExp.AssertStart r) i))
                        (seq (S k) n) = []) as Hlater.
  { induction n as [|n IH]; intros k; [reflexivity|].
    cbn [seq omap list_omap]. cbn [RegExp.ends]. cbn [Nat.eqb flat_map head fmap option_fmap option_map].
    apply IH. }
  cbn [omap list_omap]. rewrite Hlater.
  cbn [RegExp.ends Nat.eqb flat_map]. rewrite app_nil_r.
  now destruct (head (RegExp.ends ic inp r 0)).
Qed.

Lemma relativeRequest_pattern :
  relativeRequest
  = RegExp.mkRegExp
      (RegExp.Seq RegExp.AssertStart
         (RegExp.Seq (RegExp.Class false [("."%char, "."%char)])
            (RegExp.Seq (RegExp.Opt (RegExp.Class false [("."%char, "."%char)]))
               (RegExp.Seq (RegExp.Class false [("/"%char, "/"%char)]) RegExp.Empty))))
      false.
Proof. vm_compute. reflexivity. Qed.

Lemma single_class_matches (c x : ascii) :
  RegExp.class_matches false [(c, c)] x = ascii_eqb c x.
Proof.
  unfold RegExp.class_matches, RegExp.range_chars. cbn [fst snd existsb].
  replace (S (nat_of_ascii c) - nat_of_ascii c) with 1 by lia.
  cbn [seq map existsb]. rewrite ascii_nat_embedding.
  unfold RegExp.char_matches. now rewrite !orb_false_r.
Qed.

Lemma relativeRequest_startsWith (s : string) :
  RegExp.test relativeRequest s = isRelative s.
Proof.
  unfold RegExp.test. rewrite relativeRequest_pattern, exec_anchored.
  unfold isRelative, startsWith.
  change (to_chars "./") with ["."%char; "/"%char].
  change (to_chars "../") with ["."%char; "."%char; "/"%char].
  destruct (to_chars s) as [|a [|b [|c rest]]];
    repeat (cbn [RegExp.ends lookup list_lookup flat_map app xorb is_prefix andb orb];
            rewrite ?single_class_matches;
            match goal with
            | |- context [ascii_eqb ?x ?y] => destruct (ascii_eqb x y) eqn:?
            end);
    cbn [RegExp.ends lookup list_lookup flat_map app xorb is_prefix andb orb];
    rewrite ?filter_cons_True by lia; rewrite ?filter_nil;
    cbn [RegExp.ends lookup list_lookup flat_map app xorb is_prefix andb orb];
    rewrite ?single_class_matches;
    repeat match goal with
           | H : ascii_eqb ?x ?y = _ |- context [ascii_eqb ?x ?y] => rewrite H
           end;
    cbn [flat_map app head fmap option_fmap option_map];
    try reflexivity;
    repeat match goal with
           | |- context [ascii_eqb ?x ?y] => destruct (ascii_eqb x y)
           end;
    reflexivity.
Qed.

Lemma indexOf_first_char x pat l i : indexOf (x :: pat) l = Some i -> x ∈ l.
Proof.
  revert i. induction l as [|y l IH]; intros i; cbn [indexOf is_prefix]; [discriminate|].
  destruct (ascii_eqb x y) eqn:Hxy.
  - intros _. apply ascii_eqb_true in Hxy as ->. apply list_elem_of_here.
  - cbn [andb]. destruct (indexOf (x :: pat) l) as [j|]; [|discriminate].
    intros _. apply list_elem_of_further. now apply (IH j).
Qed.

Lemma plain_char_spec c : plain_char c = true -> c ∉ syntax_characters.
Proof. unfold plain_char. now intros H%negb_true_iff%bool_decide_eq_false. Qed.

(** Nothing is replaced in a string without an opening bracket. *)
Lemma escape_leaves_plain (s : string) :
  plain s = true -> replace_string s "[.?*+|\([{^$]" "\$&" = s.
Proof.
  intros Hplain. unfold replace_string.
  destruct (indexOf (to_chars "[.?*+|\([{^$]") (to_chars s)) as [i|] eqn:Hi; [|reflexivity].
  exfalso. apply indexOf_first_char in Hi.
  unfold plain in Hplain. rewrite forallb_forall in Hplain.
  apply list_elem_of_In, Hplain, plain_char_spec in Hi. apply Hi.
  unfold syntax_characters. rewrite !elem_of_cons. tauto.
Qed.

Lemma parse_term_plain f c rest :
  plain_char c = true ->
  RegExp.parse_term (S f) (c :: rest) = RegExp.quantify (RegExp.Char c) rest.
Proof.
  intros H. destruct c as [[] [] [] [] [] [] [] []];
    try (vm_compute in H; discriminate H); reflexivity.
Qed.

Lemma parse_alternative_plain f c rest :
  plain_char c = true ->
  RegExp.parse_alternative (S f) (c :: rest)
  = match RegExp.parse_term f (c :: rest) with
    | Some (a, s') =>
        match RegExp.parse_alternative f s' with
        | Some (b, s'') => Some (RegExp.Seq a b, s'')
        | None => None
        end
    | None => None
    end.
Proof.
  intros H. destruct c as [[] [] [] [] [] [] [] []];
    try (vm_compute in H; discriminate H); reflexivity.
Qed.

Lemma quantify_before_plain a c rest :
  plain_char c = true -> RegExp.quantify a (c :: rest) = Some (a, c :: rest).
Proof.
  intros H. destruct c as [[] [] [] [] [] [] [] []];
    try (vm_compute in H; discriminate H); reflexivity.
Qed.

Lemma parse_alternative_literal l :
  forall f, forallb plain_char l = true -> length l + 2 <= f ->
    RegExp.parse_alternative f (l ++ ["$"%char]) = Some (literal_tree l, []).
Proof.
  induction l as [|c l IH]; intros f Hplain Hf.
  - destruct f as [|[|f]]; [simpl in Hf; lia..|]. reflexivity.
  - cbn [forallb] in Hplain. apply andb_prop in Hplain as [Hc Hl].
    destruct f as [|[|f]]; [simpl in Hf; lia..|].
    cbn [app]. rewrite (parse_alternative_plain _ _ _ Hc), (parse_term_plain _ _ _ Hc).
    assert (RegExp.quantify (RegExp.Char c) (l ++ ["$"%char])
            = Some (RegExp.Char c, l ++ ["$"%char])) as ->.
    { destruct l as [|c' l']; [reflexivity|].
      cbn [forallb] in Hl. apply andb_prop in Hl as [Hc' _].
      now apply quantify_before_plain. }
    rewrite (IH (S f) Hl) by (simpl in Hf |- *; lia). reflexivity.
Qed.

Lemma parse_disjunction_single f s a :
  RegExp.parse_alternative f s = Some (a, []) ->
  RegExp.parse_disjunction (S f) s = Some (a, []).
Proof. intros H. cbn [RegExp.parse_disjunction]. now rewrite H. Qed.

Lemma parse_alternative_caret f rest :
  RegExp.parse_alternative (S (S f)) ("^"%char :: rest)
  = match RegExp.parse_alternative (S f) rest with
    | Some (b, s'') => Some (RegExp.Seq RegExp.AssertStart b, s'')
    | None => None
    end.
Proof. reflexivity. Qed.

(** The source [^s$], for a string [s] without syntax characters,
    parses to the literal pattern of [s] between the two anchors. *)
Lemma parse_anchored_literal (s : string) :
  plain s = true ->
  RegExp.parse ("^" +:+ s +:+ "$")
  = Some (RegExp.Seq RegExp.AssertStart (literal_tree (to_chars s))).
Proof.
  intros Hplain. unfold RegExp.parse.
  rewrite !to_chars_append.
  change (to_chars "^") with ["^"%char]. change (to_chars "$") with ["$"%char].
  cbn [app]. cbn [length]. rewrite length_app. cbn [length].
  replace (4 * S (length (to_chars s) + 1) + 4)
    with (S (S (S (length (to_chars s) + 2 + (3 * length (to_chars s) + 7))))) by lia.
  rewrite (parse_disjunction_single _ _
             (RegExp.Seq RegExp.AssertStart (literal_tree (to_chars s)))); [reflexivity|].
  rewrite parse_alternative_caret.
  rewrite parse_alternative_literal by (exact Hplain || lia).
  reflexivity.
Qed.

(** The literal pattern matches from a position exactly when the
    rest of the input is the literal. *)
Lemma ends_literal l :
  forall inp i, i <= length inp ->
    RegExp.ends false inp (literal_tree l) i
    = if bool_decide (drop i inp = l) then [length inp] else [].
Proof.
  induction l as [|c l IH]; intros inp i Hi; cbn [literal_tree RegExp.ends].
  - destruct (i =? length inp) eqn:Heq.
    + apply Nat.eqb_eq in Heq as ->. rewrite drop_all.
      rewrite bool_decide_eq_true_2 by reflexivity. reflexivity.
    + apply Nat.eqb_neq in Heq. rewrite bool_decide_eq_false_2; [reflexivity|].
      intros Hd. apply (f_equal length) in Hd. rewrite length_drop in Hd. simpl in Hd. lia.
  - unfold RegExp.char_matches.
    match goal with
    | |- context [match ?t with Some _ => _ | None => _ end] => destruct t as [x|] eqn:Hx
    end.
    + rewrite (drop_S _ _ _ Hx).
      destruct (ascii_eqb c x) eqn:Hcx.
      * apply ascii_eqb_true in Hcx as ->. cbn [flat_map]. rewrite app_nil_r.
        rewrite IH by (apply lookup_lt_Some in Hx; lia).
        destruct (decide (drop (S i) inp = l)) as [-> | Hne].
        -- now rewrite !bool_decide_eq_true_2.
        -- rewrite !bool_decide_eq_false_2; [reflexivity | congruence | exact Hne].
      * cbn [flat_map]. rewrite bool_decide_eq_false_2; [reflexivity|].
        intros [= ->]. unfold ascii_eqb in Hcx. now rewrite Ascii.eqb_refl in Hcx.
    + cbn [flat_map]. rewrite bool_decide_eq_false_2; [reflexivity|].
      apply lookup_ge_None in Hx. rewrite drop_ge by exact Hx. discriminate.
Qed.

(** X2. A literal rule without syntax characters is compiled to a
    pattern that accepts exactly the literal. *)
Theorem plain_literal_matches_itself_only (s : string) :
  plain s = true ->
  exists re,
    toRegExp (inl s) = Some (Return re) /\
    forall candidate, RegExp.test re candidate = true <-> candidate = s.
Proof.
  intros Hplain. unfold toRegExp, RegExp.new.
  rewrite (escape_leaves_plain s Hplain), (parse_anchored_literal s Hplain).
  eexists. split; [reflexivity|].
  intros candidate. unfold RegExp.test. rewrite exec_anchored.
  rewrite ends_literal by lia. rewrite drop_0.
  destruct (decide (to_chars candidate = to_chars s)) as [Heq | Hne].
  - rewrite (bool_decide_eq_true_2 (to_chars candidate = to_chars s)) by exact Heq.
    split; [intros _; now apply to_chars_inj | reflexivity].
  - rewrite (bool_decide_eq_false_2 (to_chars candidate = to_chars s)) by exact Hne.
    split; [discriminate | intros ->; contradiction].
Qed.

Lemma plain_literal_matches_itself_only_witness :
  plain "@scope/pkg-name" = true /\
  exists re,
    toRegExp (inl "@scope/pkg-name") = Some (Return re) /\
    forall candidate, RegExp.test re candidate = true <-> candidate = "@scope/pkg-name".
Proof.
  split; [reflexivity|].
  apply (plain_literal_matches_itself_only "@scope/pkg-name"). reflexivity.
Defined.

(** X1. The two tests for a relative path agree: the pattern
    [/^[.][.]?[/]/] of the classifier accepts exactly the strings
    that start with [./] or [../], which is what the rewriter asks
    with [startsWith]. *)
Theorem relative_tests_agree (s : string) :
  RegExp.test relativeRequest s = (startsWith s "./" || startsWith s "../").
Proof. apply relativeRequest_startsWith. Qed.

End PatternFacts.

(** ** The package boundary *)

Section BoundaryFacts.
Import JsString Path Bundler Spec Samples.




Lemma findPackageRoot_absolute_ends (fs : filesystem) (p : string) :
  isAbsolute p = true -> findPackageRoot fs p ≠ Diverge.
Proof.
  intros Habs. unfold findPackageRoot.
  destruct (statSync_isFile fs p) as [isFile|]; [|discriminate].
  set (p0 := if isFile then dirname p else p).
  assert (isAbsolute p0 = true) as Habs0.
  { subst p0. destruct isFile; [now apply dirname_absolute | exact Habs]. }
  destruct (walk_absolute_terminates fs (String.length p0 + 2) p0 Habs0) as (r & -> & _);
    [lia | discriminate].
Qed.

End BoundaryFacts.

(** ** The classifier, branch by branch *)

Section ClassifierFacts.
Import JsString Path Bundler Spec Samples.
Variable env : environment.


(** X5. For a request that resolves into a package other than the
    entrypoint's, only the package's name decides: when no rule
    matches the name the request stays inline, with nothing recorded
    and nothing logged, even if the request string itself matches a
    rule. *)
Theorem foreign_package_name_decides
    (this : bundler) (context request resolvedPath root : string)
    (descriptor : PackageDescriptor) :
  resolve_request env context request = Some resolvedPath ->
  findPackageRoot (fs env) resolvedPath = Return (Some root) ->
  root ≠ "" -> Some root ≠ entrypointPackageRoot this ->
  require_descriptor env (root +:+ "/package.json") = Some descriptor ->
  some_pattern_matches (externalDepsPatterns this) (to_String (name descriptor)) = false ->
  extractDependencies env context request this = (Return None, this, []).
Proof.
  intros Hres Hroot Hne Hforeign Hreq Hmatch.
  rewrite extractDependencies_cases, Hres, Hroot.
  assert (foreignRoot this (Some root) = Some root) as ->.
  { unfold foreignRoot. rewrite bool_decide_eq_true_2 by exact Hne.
    now rewrite bool_decide_eq_false_2 by exact Hforeign. }
  now rewrite Hreq, Hmatch.
Qed.


(** X7. When the resolver only yields absolute paths, as module
    resolution does, the classifier always answers: it neither raises
    nor hangs, it leaves the table of workflow bundles alone, and it
    never removes a dependency. *)
Theorem classifier_always_answers (this : bundler) (context request : string) :
  (forall resolvedPath,
     resolve_request env context request = Some resolvedPath ->
     isAbsolute resolvedPath = true) ->
  exists answer this' evs,
    extractDependencies env context request this = (Return answer, this', evs) /\
    workflowsBundles this' = workflowsBundles this /\
    dom (dependenciesOf this) ⊆ dom (dependenciesOf this').
Proof.
  intros Habs.
  destruct (extractDependencies_effect env context request this)
    as (o & evs & this' & Heq & Hnothrow & Hdeps & Hwb & _ & _).
  assert (dom (dependenciesOf this) ⊆ dom (dependenciesOf this')) as Hdom.
  { rewrite Hdeps. destruct (boundary_record env this context request) as [[n v]|];
      [|reflexivity]. cbn [record_one]. rewrite dom_insert. set_solver. }
  destruct o as [answer | e | ].
  - exists answer, this', evs. auto.
  - now destruct (Hnothrow e).
  - exfalso. rewrite extractDependencies_cases in Heq.
    destruct (matchRawRequest_eq request this) as (evs0 & Hraw & _).
    rewrite Hraw in Heq.
    destruct (resolve_request env context request) as [resolvedPath|] eqn:Hres;
      [|discriminate].
    pose proof (findPackageRoot_absolute_ends (fs env) resolvedPath (Habs _ eq_refl)) as Hend.
    destruct (findPackageRoot (fs env) resolvedPath) as [packageRoot|e|];
      [|discriminate|contradiction].
    destruct (foreignRoot this packageRoot) as [root|]; [|discriminate].
    destruct (require_descriptor env (root +:+ "/package.json")) as [descriptor|];
      [|discriminate].
    destruct (some_pattern_matches _ _); discriminate.
Qed.

End ClassifierFacts.

Section ClassifierSamples.
Import JsString Path Bundler Spec Samples.



Lemma classifier_always_answers_witness :
  exists answer this' evs,
    extractDependencies appEnv "/app/src" "bar" appBundler = (Return answer, this', evs) /\
    workflowsBundles this' = workflowsBundles appBundler /\
    dom (dependenciesOf appBundler) ⊆ dom (dependenciesOf this').
Proof.
  apply (classifier_always_answers appEnv appBundler "/app/src" "bar").
  intros resolvedPath [= <-]. reflexivity.
Defined.

Lemma foreign_package_name_decides_witness :
  extractDependencies appEnv "/app/src" "bar" appBundler = (Return None, appBundler, []).
Proof.
  apply (foreign_package_name_decides appEnv appBundler "/app/src" "bar"
           "/app/node_modules/bar/index.js" "/app/node_modules/bar"
           {| name := Some "bar"; version := Some "3.1.0" |}).
  - reflexivity.
  - reflexivity.
  - discriminate.
  - vm_compute. discriminate.
  - reflexivity.
  - vm_compute. reflexivity.
Defined.

End ClassifierSamples.

(** ** The rewriter, call by call *)

Section RewriterFacts.
Import JsString Path Bundler Spec Samples.
Variable env : environment.

(** X8. On a reference that starts with [./] or [../] the rewriter
    always returns (the collision loop ends): its answer is the target
    path of an identifier that is the base identifier or the base with
    a suffix [-k], [k >= 1]; the entry for the source path is stored
    under that identifier, every other entry stays as it was, an entry
    of another source path is never overwritten, and nothing else of
    the object changes. *)
Theorem rewriter_stores_entry (workflowsPath filename : string) (this : bundler) :
  startsWith workflowsPath "./" || startsWith workflowsPath "../" = true ->
  let sourcePath := Path.resolve (cwd env) [Path.dirname filename; workflowsPath] in
  let base := baseWorkflowsBundleId workflowsPath in
  exists id this',
    workflowsTransform env workflowsPath filename this
    = (Return ("./" +:+ id +:+ ".workflowbundle.js"), this', []) /\
    (id = base \/ exists k, 1 <= k /\ id = base +:+ "-" +:+ pretty k) /\
    workflowsBundles this' !! id
    = Some (Entry.mkEntry sourcePath ("./" +:+ id +:+ ".workflowbundle.js")) /\
    (forall id', id' ≠ id -> workflowsBundles this' !! id' = workflowsBundles this !! id') /\
    (forall e, workflowsBundles this !! id = Some e -> Entry.sourcePath e = sourcePath) /\
    packageJson this' = packageJson this /\
    externalDepsPatterns this' = externalDepsPatterns this.
Proof.
  intros Hrel sourcePath base.
  destruct (workflowsTransform_relative env workflowsPath filename this Hrel)
    as (id & Ha & Heq).
  eexists id, _. split; [exact Heq|].
  destruct Ha as (j & Hid & Hfree & _). split.
  { destruct j as [|j]; [now left|]. right. exists (S j). split; [lia | exact Hid]. }
  split; [apply lookup_insert_eq|]. split.
  { intros id' Hne. cbn. now apply lookup_insert_ne. }
  split; [|split; reflexivity].
  intros e He. subst sourcePath.
  apply blocked_false_cases in Hfree as [[Hnone _] | (e' & He' & Hs)]; congruence.
Qed.

(** X9. Rewriting the same reference again changes nothing: the
    second call gives the answer of the first and leaves the object
    exactly as the first call left it. *)
Theorem rewriter_idempotent (r : reference) (this : bundler) :
  rewrite_one env r (snd (rewrite_one env r this))
  = (fst (rewrite_one env r this), snd (rewrite_one env r this)).
Proof.
  destruct (isRelative (workflowsPath r)) eqn:Hrel.
  - destruct (rewrite_one_relative env r this Hrel) as (id & Ha & ->). cbn [fst snd].
    set (this1 := assign_workflowsBundle this _ _).
    destruct (rewrite_one_relative env r this1 Hrel) as (id' & Ha' & ->).
    assert (id' = id) as ->.
    { apply (allocated_unique _ _ _ _ _ Ha'). apply settled_allocated.
      subst this1. cbn. now apply allocated_insert_settled. }
    f_equal. subst this1. unfold assign_workflowsBundle. cbn.
    rewrite insert_insert_eq, lookup_insert_eq.
    rewrite (bool_decide_eq_true_2 (is_Some (Some _))) by eauto. reflexivity.
  - now rewrite !(rewrite_one_not_relative env r _ Hrel).
Qed.

Lemma workflowsTransform_wf workflowsPath filename this :
  table_wf (workflowsBundles this) ->
  table_wf (workflowsBundles (snd (fst (workflowsTransform env workflowsPath filename this)))).
Proof.
  intros Hwf. destruct (isRelative workflowsPath) eqn:Hrel.
  - destruct (workflowsTransform_relative env workflowsPath filename this Hrel)
      as (id & Ha & ->). cbn.
    intros id' e He. destruct (decide (id = id')) as [<- | Hne].
    + rewrite lookup_insert_eq in He. injection He as <-. split; [reflexivity|].
      destruct (workflowsBundles this !! id) as [e0|] eqn:He0.
      * now destruct (Hwf id e0 He0).
      * now apply (allocated_not_inherited _ _ _ _ Ha).
    + rewrite lookup_insert_ne in He by exact Hne. now apply Hwf.
  - now rewrite (workflowsTransform_not_relative env _ _ _ Hrel).
Qed.

Lemma run_engine_Transform workflowsPath filename next this :
  run_engine env (Transform workflowsPath filename next) this
  = match workflowsTransform env workflowsPath filename this with
    | (Diverge, this1, evs) => (Diverge, this1, evs)
    | (answer, this1, evs) =>
        (fst (run_engine env (next answer) this1),
         evs ++ snd (run_engine env (next answer) this1))
    end.
Proof.
  cbn [run_engine]. unfold bind, attempt.
  destruct (workflowsTransform env workflowsPath filename this) as [[[answer|e|] this1] evs];
    [| |reflexivity].
  - now destruct (run_engine env (next (Return answer)) this1) as [[? ?] ?].
  - now destruct (run_engine env (next (Throw e)) this1) as [[? ?] ?].
Qed.

Lemma run_engine_Externals context request next this :
  run_engine env (Externals context request next) this
  = match extractDependencies env context request this with
    | (Return answer, this1, evs) =>
        (fst (run_engine env (next answer) this1),
         evs ++ snd (run_engine env (next answer) this1))
    | (Throw e, this1, evs) => (Throw e, this1, evs)
    | (Diverge, this1, evs) => (Diverge, this1, evs)
    end.
Proof.
  cbn [run_engine]. unfold bind at 1.
  destruct (extractDependencies env context request this) as [[[answer|e|] this1] evs];
    [|reflexivity..].
  now destruct (run_engine env (next answer) this1) as [[? ?] ?].
Qed.

Lemma run_engine_LoadModule path next this :
  run_engine env (LoadModule path next) this
  = (fst (run_engine env next this), ModuleRead path :: snd (run_engine env next this)).
Proof.
  cbn [run_engine]. unfold bind, emit.
  now destruct (run_engine env next this) as [[[] ?] ?].
Qed.

Lemma run_engine_EmitAsset path next this :
  run_engine env (EmitAsset path next) this
  = (fst (run_engine env next this), AssetEmitted path :: snd (run_engine env next this)).
Proof.
  cbn [run_engine]. unfold bind, emit.
  now destruct (run_engine env next this) as [[[] ?] ?].
Qed.

(** X10. Whatever the engine does during the main build, the table
    of workflow bundles keeps its shape: every entry has the target
    path [./<id>.workflowbundle.js] of its own identifier, and no
    entry is stored under a name inherited from [Object.prototype];
    and the table only grows: an entry, once stored, stays under its
    identifier with its source path. *)
Theorem build_keeps_table_shape (e : engine) :
  forall this,
    table_wf (workflowsBundles this) ->
    table_wf (workflowsBundles (snd (fst (run_engine env e this)))) /\
    keeps (workflowsBundles this) (workflowsBundles (snd (fst (run_engine env e this)))).
Proof.
  induction e as [err st | | path next IH | path next IH | workflowsPath filename next IH
                 | context request next IH]; intros this Hwf.
  - split; [exact Hwf | apply keeps_refl].
  - split; [exact Hwf | apply keeps_refl].
  - rewrite run_engine_LoadModule. cbn [fst snd]. now apply IH.
  - rewrite run_engine_EmitAsset. cbn [fst snd]. now apply IH.
  - rewrite run_engine_Transform.
    pose proof (workflowsTransform_wf workflowsPath filename this Hwf) as Hwf1.
    assert (keeps (workflowsBundles this)
              (workflowsBundles (snd (fst (workflowsTransform env workflowsPath filename this)))))
      as Hk1 by apply (rewrite_one_keeps env {| workflowsPath := workflowsPath;
                                                 filename := filename |} this).
    destruct (workflowsTransform env workflowsPath filename this) as [[o this1] evs1].
    cbn [fst snd] in Hwf1, Hk1.
    destruct o as [answer | err | ]; cbn [fst snd]; [| |split; [exact Hwf1 | exact Hk1]].
    + destruct (IH (Return answer) this1 Hwf1) as [Hwf' Hk].
      split; [exact Hwf' | exact (keeps_trans _ _ _ Hk1 Hk)].
    + destruct (IH (Throw err) this1 Hwf1) as [Hwf' Hk].
      split; [exact Hwf' | exact (keeps_trans _ _ _ Hk1 Hk)].
  - destruct (extractDependencies_effect env context request this)
      as (o & evs1 & this1 & Heq & Hnothrow & _ & Hwb & _ & _).
    rewrite run_engine_Externals, Heq.
    destruct o as [answer | err | ]; cbn [fst snd].
    + rewrite <- Hwb in Hwf. rewrite <- Hwb. now apply IH.
    + now destruct (Hnothrow err).
    + rewrite Hwb. split; [exact Hwf | apply keeps_refl].
Qed.

End RewriterFacts.

Section RewriterSamples.
Import JsString Path Bundler Spec Samples.

Lemma rewriter_stores_entry_witness :
  exists id this',
    workflowsTransform appEnv "./workflows" "/app/src/worker.ts" appBundler
    = (Return ("./" +:+ id +:+ ".workflowbundle.js"), this', []) /\
    workflowsBundles this' !! id
    = Some (Entry.mkEntry "/app/src/workflows" ("./" +:+ id +:+ ".workflowbundle.js")).
Proof.
  destruct (rewriter_stores_entry appEnv "./workflows" "/app/src/worker.ts" appBundler
              eq_refl) as (id & this' & Heq & _ & Hstored & _).
  exists id, this'. split; [exact Heq | exact Hstored].
Defined.

Lemma build_keeps_table_shape_witness :
  table_wf (workflowsBundles appBundler) /\
  table_wf (workflowsBundles
              (snd (fst (run_engine appEnv (rewritingEngine "./workflows") appBundler)))).
Proof.
  assert (table_wf (workflowsBundles appBundler)) as Hwf
    by (intros id e H; discriminate H).
  split; [exact Hwf|].
  apply (build_keeps_table_shape appEnv (rewritingEngine "./workflows") appBundler Hwf).
Defined.

End RewriterSamples.

(** ** The phases of the build *)

Section BuildFacts.
Import JsString Path Bundler Spec Samples.
Variable env : environment.

Lemma console_lines_events hasError ls this :
  console_lines hasError ls this
  = (Return tt, this, (if hasError then ConsoleError else ConsoleInfo) <$> ls).
Proof.
  induction ls as [|line rest IH]; [reflexivity|].
  cbn [console_lines]. unfold bind at 1. unfold emit. rewrite IH.
  now destruct hasError.
Qed.

Lemma run_callback_eq err st this :
  run_callback err st this = (settled_promise err st, this, printed_lines st).
Proof.
  unfold run_callback, settled_promise, printed_lines. destruct st as [s|].
  - unfold bind, ret, throw. rewrite console_lines_events.
    destruct (hasErrors s); [|destruct err]; cbn [app]; now rewrite !app_nil_r.
  - unfold bind, ret, throw. now destruct err.
Qed.

(** X11. The result of the main build once the engine has called
    back: every line of the statistics is printed, with
    [console.error] when there are errors and [console.info]
    otherwise; the build fails with [Webpack finished with errors.]
    when the statistics report errors, whatever [err] is, with [err]
    otherwise when there is one, and succeeds if neither; the compiler
    is then released, and an error of the release replaces that
    result, a success included. *)
Theorem main_build_result
    (entry target : string) (this this' : bundler) (c : compiler)
    (err : option string) (st : option stats) (revs : list event) :
  webpack env entry target = Some c ->
  run_engine env (run c) this = (Return (err, st), this', revs) ->
  bundleWorker env entry target this
  = (match close c with
     | Some e => Throw e
     | None =>
         match st with
         | Some s =>
             if hasErrors s then Throw "Webpack finished with errors."
             else match err with Some e => Throw e | None => Return tt end
         | None => match err with Some e => Throw e | None => Return tt end
         end
     end,
     this',
     CompilerRun
       :: (revs ++ match st with
                   | Some s => (if hasErrors s then ConsoleError else ConsoleInfo) <$> lines s
                   | None => []
                   end)
       ++ [CompilerClose]).
Proof.
  intros Hc Hrun. rewrite (bundleWorker_eq env entry target this c Hc), Hrun.
  cbn [fst snd]. rewrite run_callback_eq. reflexivity.
Qed.

Lemma dom_record_all records :
  forall deps : gmap string string, dom deps ⊆ dom (record_all records deps).
Proof.
  induction records as [|[n v] rest IH]; intros deps; [reflexivity|].
  rewrite record_all_cons. etrans; [|apply IH]. cbn [fst snd]. rewrite dom_insert. set_solver.
Qed.

(** X12. For an object whose rules are stateless, as the rules of a
    [bundler] are (patterns compiled from strings, and RegExp objects
    without the flags [g] and [y]; [toRegExp] has no answer for an
    object with one of them): during the main build the rules do not
    change and no dependency is ever removed: whatever the engine
    asks, the classifier gives for a request the same answer after
    the run as before it, and every name that was a dependency still
    is one. *)
Theorem build_keeps_classification (e : engine) (this : bundler) (context request : string) :
  let this' := snd (fst (run_engine env e this)) in
  fst (fst (extractDependencies env context request this'))
  = fst (fst (extractDependencies env context request this)) /\
  dom (dependenciesOf this) ⊆ dom (dependenciesOf this').
Proof.
  destruct (run_engine_effect env e this) as (o & this' & evs & Hrun & Hdeps & Hk & _).
  rewrite Hrun. cbn [fst snd]. split; [|rewrite Hdeps; apply dom_record_all].
  destruct Hk as (_ & _ & Hroot & Hpat).
  rewrite !extractDependencies_cases.
  destruct (matchRawRequest_eq request this) as (evs1 & -> & _).
  destruct (matchRawRequest_eq request this') as (evs2 & -> & _).
  unfold rawAnswer, foreignRoot. rewrite Hroot, Hpat.
  destruct (resolve_request env context request) as [resolvedPath|]; [|reflexivity].
  destruct (findPackageRoot (fs env) resolvedPath) as [[root|]|err|]; try reflexivity.
  destruct (bool_decide (root ≠ "") && negb (bool_decide (Some root = entrypointPackageRoot this)));
    [|reflexivity].
  destruct (require_descriptor env (root +:+ "/package.json")) as [descriptor|]; [|reflexivity].
  now destruct (some_pattern_matches _ _).
Qed.

Lemma written_files_app evs evs' :
  written_files (evs ++ evs') = written_files evs ++ written_files evs'.
Proof.
  induction evs as [|ev evs IH]; [reflexivity|].
  cbn [app written_files]. rewrite IH. now destruct ev.
Qed.

Lemma bundleWorkflows_each_artifacts targetDirectory definitions this :
  forall evs,
    bundleWorkflows_each env targetDirectory definitions this = (Return tt, this, evs) ->
    artifacts env targetDirectory definitions = Some (written_files evs) /\
    Forall (fun a => writable env (fst a) = true) (written_files evs).
Proof.
  induction definitions as [|d rest IH]; intros evs.
  - intros [= <-]. split; [reflexivity | constructor].
  - cbn [bundleWorkflows_each artifacts]. unfold artifact.
    unfold bind at 1. unfold emit. unfold bind at 1.
    destruct (bundleWorkflowCode env (Entry.sourcePath d)) as [code|]; [|discriminate].
    unfold bind at 1. rewrite writeFileSync_effect.
    destruct (writable env _) eqn:Hw; [|discriminate].
    destruct (bundleWorkflows_each_effect env targetDirectory rest this) as (o & evs' & Heq & _).
    rewrite Heq. destruct o as [[]|e|]; [|discriminate..].
    intros [= <-]. cbn [app written_files].
    destruct (IH evs' Heq) as [-> Hall]. split; [reflexivity|].
    constructor; [exact Hw | exact Hall].
Qed.

(** X13. When [bundleWorkflows] succeeds, the files it wrote are the
    artifacts of the entries of the table, one file per entry: for
    each entry the code the workflow compiler gave for its source
    path, written to its target path resolved against the target
    directory; the compiler succeeded for every entry, and the object
    is as it was. *)
Theorem bundleWorkflows_writes_one_file_per_entry
    (targetDirectory : string) (this this' : bundler) (evs : list event) :
  bundleWorkflows env targetDirectory this = (Return tt, this', evs) ->
  this' = this /\
  length (written_files evs) = size (workflowsBundles this) /\
  exists entries,
    entries ≡ₚ snd <$> map_to_list (workflowsBundles this) /\
    artifacts env targetDirectory entries = Some (written_files evs).
Proof.
  unfold bundleWorkflows, bind, get.
  destruct (bundleWorkflows_each_effect env targetDirectory
              (Object_values this) this) as (o & evs' & Heq & _).
  rewrite Heq. destruct o as [[]|e|]; [|discriminate..].
  intros [= <- <-]. cbn [app].
  destruct (bundleWorkflows_each_artifacts _ _ _ _ Heq) as [Ha _].
  split; [reflexivity|]. split.
  - assert (forall es fs, artifacts env targetDirectory es = Some fs -> length fs = length es)
      as Hlen.
    { induction es as [|e es IH]; intros fs; cbn [artifacts]; [now intros [= <-]|].
      destruct (artifact env targetDirectory e); [|discriminate].
      destruct (artifacts env targetDirectory es) as [others|]; [|discriminate].
      intros [= <-]. cbn [length]. now rewrite (IH others). }
    rewrite (Hlen _ _ Ha), (Object_values_Permutation this), length_fmap.
    apply length_map_to_list.
  - eexists. split; [apply Object_values_Permutation | exact Ha].
Qed.




(** [bundle], phase by phase. *)
Lemma bundle_eq this :
  bundle env this
  = match bundleWorker env (entrypointPath this) (targetPath this) this with
    | (Return _, s1, wevs) =>
        match bundleWorkflows env (dirname (targetPath this)) s1 with
        | (Return _, s2, bevs) =>
            if writable env (dirname (targetPath this) +:+ "/package.json")
            then (Return tt, s2,
                  wevs ++ bevs ++
                  [WriteFile (dirname (targetPath this) +:+ "/package.json")
                     (Json (packageJson s2))])
            else (Throw "EACCES: permission denied, open", s2, wevs ++ bevs)
        | (Throw e, s2, bevs) => (Throw e, s2, wevs ++ bevs)
        | (Diverge, s2, bevs) => (Diverge, s2, wevs ++ bevs)
        end
    | (Throw e, s1, wevs) => (Throw e, s1, wevs)
    | (Diverge, s1, wevs) => (Diverge, s1, wevs)
    end.
Proof.
  unfold bundle, bind at 1, get. unfold bind at 1.
  destruct (bundleWorker env (entrypointPath this) (targetPath this) this)
    as [[[[]|e|] s1] wevs]; [|reflexivity..].
  unfold bind at 1.
  destruct (bundleWorkflows env (dirname (targetPath this)) s1) as [[[[]|e|] s2] bevs];
    [|reflexivity..].
  unfold generatePackageJson, bind, get. rewrite writeFileSync_effect.
  destruct (writable env _); cbn [app]; now rewrite ?app_nil_r.
Qed.

Lemma bundleWorkflows_no_manifest targetDirectory this :
  written_manifests (snd (bundleWorkflows env targetDirectory this)) = [].
Proof.
  unfold bundleWorkflows, bind, get.
  destruct (bundleWorkflows_each_effect env targetDirectory
              (Object_values this) this) as (o & evs & -> & Hm).
  now destruct o.
Qed.

(** X14. The manifest is written last or not at all: when [bundle]
    returns, the manifest with the object's final [packageJson] is
    the last file written, into the directory of the target, and no
    manifest was written before it; when [bundle] fails, in whatever
    phase, no manifest has been written. *)
Theorem manifest_last_or_never (this : bundler) :
  match bundle env this with
  | (Return _, this', evs) =>
      exists before,
        evs = before ++ [WriteFile (dirname (targetPath this) +:+ "/package.json")
                           (Json (packageJson this'))] /\
        written_manifests before = []
  | (_, _, evs) => written_manifests evs = []
  end.
Proof.
  rewrite bundle_eq.
  destruct (bundleWorker env (entrypointPath this) (targetPath this) this)
    as [[o1 s1] wevs] eqn:Hw.
  destruct (bundleWorker_writes_nothing env _ _ _ _ _ _ Hw) as [_ Hwm].
  destruct o1 as [[]|e|]; [|exact Hwm..].
  pose proof (bundleWorkflows_no_manifest (dirname (targetPath this)) s1) as Hbm.
  destruct (bundleWorkflows env (dirname (targetPath this)) s1) as [[o2 s2] bevs].
  cbn [snd] in Hbm.
  destruct o2 as [[]|e|]; [|now rewrite written_manifests_app, Hwm, Hbm..].
  destruct (writable env _).
  - exists (wevs ++ bevs). split; [now rewrite app_assoc|].
    now rewrite written_manifests_app, Hwm, Hbm.
  - now rewrite written_manifests_app, Hwm, Hbm.
Qed.

End BuildFacts.

Section BuildSamples.
Import JsString Path Bundler Spec Samples.

Lemma main_build_result_witness :
  bundleWorker (appEnvWith (quiet (rewritingEngine "workflows")))
    "/app/src/worker.ts" "/app/dist/worker.js" appBundler
  = (Throw "Webpack finished with errors.", appBundler,
     [ CompilerRun; ModuleRead "/app/src/worker.ts";
       ConsoleError "ERROR in ./src/worker.ts"; CompilerClose ]).
Proof.
  apply (main_build_result (appEnvWith (quiet (rewritingEngine "workflows")))
           "/app/src/worker.ts" "/app/dist/worker.js" appBundler appBundler
           {| run := rewritingEngine "workflows"; close := None |}
           None (Some {| hasErrors := true; lines := ["ERROR in ./src/worker.ts"] |})
           [ModuleRead "/app/src/worker.ts"]).
  - reflexivity.
  - vm_compute. reflexivity.
Defined.

Lemma bundleWorkflows_writes_one_file_per_entry_witness :
  let this := snd (rewrite_all appEnv [ ref "./workflows" "/app/a/worker.ts";
                                        ref "./workflows" "/app/b/worker.ts" ] appBundler) in
  let evs := snd (bundleWorkflows appEnv "/app/dist" this) in
  bundleWorkflows appEnv "/app/dist" this = (Return tt, this, evs) /\
  length (written_files evs) = size (workflowsBundles this) /\
  exists entries,
    entries ≡ₚ snd <$> map_to_list (workflowsBundles this) /\
    artifacts appEnv "/app/dist" entries = Some (written_files evs).
Proof.
  intros this evs.
  assert (bundleWorkflows appEnv "/app/dist" this = (Return tt, this, evs)) as Hb
    by (vm_compute; reflexivity).
  split; [exact Hb|].
  apply (bundleWorkflows_writes_one_file_per_entry appEnv "/app/dist" this this evs Hb).
Defined.

Example bundleWorkflows_two_artifacts :
  written_files
    (snd (bundleWorkflows appEnv "/app/dist"
            (snd (rewrite_all appEnv [ ref "./workflows" "/app/a/worker.ts";
                                       ref "./workflows" "/app/b/worker.ts" ] appBundler))))
  = [ ("/app/dist/workflows.workflowbundle.js", Code "// workflows of /app/a/workflows");
      ("/app/dist/workflows-1.workflowbundle.js", Code "// workflows of /app/b/workflows") ].
Proof. vm_compute. reflexivity. Qed.

(** The order of [Object.values]: the entries come in the order in
    which the references were first met, except that identifiers that
    are array indices come first, in ascending order; [007] is no
    array index. *)
Example bundleWorkflows_order :
  let this := snd (rewrite_all appEnv [ ref "./b" "/app/src/worker.ts";
                                        ref "./10" "/app/src/worker.ts";
                                        ref "./a" "/app/src/worker.ts";
                                        ref "./007" "/app/src/worker.ts";
                                        ref "./9" "/app/src/worker.ts";
                                        ref "./b" "/app/lib/jobs.ts";
                                        ref "./a" "/app/src/worker.ts" ] appBundler) in
  Entry.targetPath <$> Object_values this
  = [ "./9.workflowbundle.js"; "./10.workflowbundle.js"; "./b.workflowbundle.js";
      "./a.workflowbundle.js"; "./007.workflowbundle.js"; "./b-1.workflowbundle.js" ] /\
  fst <$> written_files (snd (bundleWorkflows appEnv "/app/dist" this))
  = [ "/app/dist/9.workflowbundle.js"; "/app/dist/10.workflowbundle.js";
      "/app/dist/b.workflowbundle.js"; "/app/dist/a.workflowbundle.js";
      "/app/dist/007.workflowbundle.js"; "/app/dist/b-1.workflowbundle.js" ].
Proof. vm_compute. split; reflexivity. Qed.

Lemma bundleWorkflows_stops_at_first_failure_sample :
  let env := {| fs := appDisk; cwd := "/app"; resolve_request := appResolve;
                require_descriptor := appDescriptors; webpack := fun _ _ => None;
                bundleWorkflowCode := fun p =>
                  if bool_decide (p = "/app/src/a") then None else Some ("// " +:+ p);
                writable := fun _ => true |} in
  let this := snd (rewrite_all env [ ref "./b" "/app/src/worker.ts";
                                     ref "./a" "/app/src/worker.ts";
                                     ref "./c" "/app/src/worker.ts" ] appBundler) in
  bundleWorkflows env "/app/dist" this
  = (Throw "bundleWorkflowCode failed", this,
     [ ConsoleLog ""; ConsoleLog "Preparing workflows bundle from directory: /app/src/b";
       WriteFile "/app/dist/b.workflowbundle.js" (Code "// /app/src/b");
       ConsoleLog ""; ConsoleLog "Preparing workflows bundle from directory: /app/src/a" ]).
Proof. vm_compute. reflexivity. Qed.

End BuildSamples.

(** ** A reference that is not relative *)

Section NonRelativeReference.
Import JsString Path Bundler Spec Samples.









(** The run of the witness: the engine has read the module and has
    written the main artifact when the build fails. *)
Example nonrelative_reference_run :
  bundle (appEnvWith (quiet (buildingEngine "workflows"))) appBundler
  = (Throw "Webpack finished with errors.", appBundler,
     [ CompilerRun; ModuleRead "/app/src/worker.ts"; AssetEmitted "/app/dist/worker.js";
       ConsoleError "ERROR in ./src/worker.ts"; CompilerClose ]) /\
  absolute_resolver (appEnvWith (quiet (buildingEngine "workflows"))).
Proof.
  split; [vm_compute; reflexivity|].
  intros context request resolvedPath. cbn [resolve_request appEnvWith]. unfold appResolve.
  repeat case_bool_decide; intros [= <-]; reflexivity.
Qed.

(** The assumption on the engine is needed: an engine that swallows
    the error of the rewriter lets [bundle()] return. *)
Example swallowed_error_build_returns :
  let env := appEnvWith (quiet (Transform "workflows" "/app/src/worker.ts"
                                  (fun _ => Callback None None))) in
  bundle env appBundler
  = (Return tt, appBundler,
     [ CompilerRun; CompilerClose;
       WriteFile "/app/dist/package.json" (Json (packageJson appBundler)) ]).
Proof. vm_compute. reflexivity. Qed.

End NonRelativeReference.

(** ** The constructor *)

Section ConstructorFacts.
Import JsString Path Bundler Spec Samples.

Lemma toRegExp_ends input : toRegExp input ≠ Some Diverge.
Proof.
  destruct input as [str|re]; cbn [toRegExp].
  - now destruct (RegExp.new _).
  - now destruct (RegExp.global re || RegExp.sticky re).
Qed.

Lemma toRegExp_raises input e :
  toRegExp input = Some (Throw e) ->
  e = "SyntaxError: Invalid regular expression" /\ exists str, input = inl str.
Proof.
  destruct input as [str|re]; cbn [toRegExp].
  - destruct (RegExp.new _); intros [= <-]. eauto.
  - now destruct (RegExp.global re || RegExp.sticky re).
Qed.

(** Compiling the rules never hangs; it raises only the SyntaxError
    of a string rule; and the model has no answer only when it has
    none for one of the rules. *)
Lemma map_toRegExp_cases inputs :
  match map_toRegExp inputs with
  | Some (Return res) => Forall2 (fun input re => toRegExp input = Some (Return re)) inputs res
  | Some (Throw e) =>
      e = "SyntaxError: Invalid regular expression" /\
      exists str, inl str ∈ inputs /\ toRegExp (inl str) = Some (Throw e)
  | Some Diverge => False
  | None => exists input, input ∈ inputs /\ toRegExp input = None
  end.
Proof.
  induction inputs as [|input rest IH]; [constructor|].
  cbn [map_toRegExp].
  pose proof (toRegExp_ends input) as Hend.
  pose proof (toRegExp_raises input) as Hraise.
  destruct (toRegExp input) as [[re|e|]|] eqn:Hin.
  - destruct (map_toRegExp rest) as [[res|e|]|].
    + now constructor.
    + destruct IH as (-> & str & Hstr & Heq). split; [reflexivity|].
      exists str. split; [now apply list_elem_of_further | exact Heq].
    + exact IH.
    + destruct IH as (input' & Hin' & Heq). exists input'.
      split; [now apply list_elem_of_further | exact Heq].
  - destruct (Hraise e eq_refl) as (-> & str & ->). split; [reflexivity|].
    exists str. split; [apply list_elem_of_here | exact Hin].
  - now apply Hend.
  - exists input. split; [apply list_elem_of_here | exact Hin].
Qed.

Lemma some_pattern_matches_app patterns patterns' candidate :
  some_pattern_matches (patterns ++ patterns') candidate
  = some_pattern_matches patterns candidate || some_pattern_matches patterns' candidate.
Proof. unfold some_pattern_matches. apply existsb_app. Qed.

(** X15. The constructor, for options whose rules the model covers
    (strings whose pattern lies in the fragment of the parser, and
    RegExp objects without the flags [g] and [y]): it always ends; it
    raises [entrypointPath must be absolute] for a path that is not
    absolute, without looking at the disk; otherwise it raises only
    what [statSync] raises or the SyntaxError of a string rule; and
    when it returns, the object has the entrypoint's package root as
    [findPackageRoot] gives it, the base name of the entrypoint as
    [main], empty tables, and as rules the four built-in patterns
    followed by the caller's rules, compiled in order, so that the
    three [@temporalio] packages are matched whatever the caller
    added.  The model has no answer only when the entrypoint is
    absolute, [findPackageRoot] returned, and it has none for one of
    the rules. *)
Theorem constructor_result (fs : filesystem) (opts : Options) :
  match constructor fs opts with
  | None =>
      isAbsolute (opt_entrypointPath opts) = true /\
      (exists root, findPackageRoot fs (opt_entrypointPath opts) = Return root) /\
      exists input, input ∈ default [] (opt_externals opts) /\ toRegExp input = None
  | Some Diverge => False
  | Some (Throw e) =>
      if isAbsolute (opt_entrypointPath opts)
      then findPackageRoot fs (opt_entrypointPath opts) = Throw e \/
           (e = "SyntaxError: Invalid regular expression" /\
            exists str, inl str ∈ default [] (opt_externals opts) /\
                        toRegExp (inl str) = Some (Throw e))
      else e = "entrypointPath must be absolute"
  | Some (Return this) =>
      isAbsolute (opt_entrypointPath opts) = true /\
      findPackageRoot fs (opt_entrypointPath opts) = Return (entrypointPackageRoot this) /\
      entrypointPath this = opt_entrypointPath opts /\
      targetPath this = opt_targetPath opts /\
      PackageJson.main (packageJson this) = Some (basename (opt_entrypointPath opts)) /\
      workflowsBundles this = ∅ /\ dependenciesOf this = ∅ /\
      (exists extra,
         externalDepsPatterns this
         = [workflowBundlePattern; coreBridgePattern; protoPattern; commonPattern] ++ extra /\
         Forall2 (fun input re => toRegExp input = Some (Return re))
           (default [] (opt_externals opts)) extra) /\
      Forall (fun request => rawAnswer this request = Some ("commonjs " +:+ request))
        [ "@temporalio/core-bridge"; "@temporalio/proto"; "@temporalio/common" ]
  end.
Proof.
  unfold constructor.
  destruct (isAbsolute (opt_entrypointPath opts)) eqn:Habs; cbn [negb]; [|reflexivity].
  pose proof (findPackageRoot_absolute_ends fs _ Habs) as Hend.
  destruct (findPackageRoot fs (opt_entrypointPath opts)) as [root|e|];
    [|now left|contradiction].
  pose proof (map_toRegExp_cases (default [] (opt_externals opts))) as Hrules.
  destruct (map_toRegExp (default [] (opt_externals opts))) as [[extra|e|]|];
    [|right; exact Hrules|contradiction|].
  2: { split; [reflexivity|]. split; [exists root; reflexivity | exact Hrules]. }
  do 7 (split; [reflexivity|]). split.
  - exists extra. split; [reflexivity | exact Hrules].
  - unfold rawAnswer. cbn [externalDepsPatterns].
    repeat constructor; rewrite some_pattern_matches_app;
      (replace (some_pattern_matches [workflowBundlePattern; coreBridgePattern; protoPattern;
                                      commonPattern] _) with true by (vm_compute; reflexivity));
      reflexivity.
Qed.

(** The constructor on rules of each kind: a plain string, a string
    that is no valid pattern, and rules the model does not cover. *)
Example constructor_rules :
  let options rules :=
    {| opt_entrypointPath := "/app/src/worker.ts"; opt_targetPath := "/app/dist/worker.js";
       opt_externals := Some rules |} in
  let stateful := RegExp.mkObject (RegExp.literal "^foo$" false) true false in
  let stateless := RegExp.mkObject (RegExp.literal "^foo$" false) false false in
  constructor appDisk (options [inl "foo"; inr stateless])
  = Some (Return (mkBundler "/app/src/worker.ts" "/app/dist/worker.js" (Some "/app")
                    [ workflowBundlePattern; coreBridgePattern; protoPattern; commonPattern;
                      RegExp.literal "^foo$" false; RegExp.literal "^foo$" false ]
                    ∅ [] (PackageJson.mkPackageJson ∅ (Some "worker.ts") true) true)) /\
  constructor appDisk (options [inl "c++"])
  = Some (Throw "SyntaxError: Invalid regular expression") /\
  constructor appDisk (options [inl "a)"; inl "a{2}"])
  = Some (Throw "SyntaxError: Invalid regular expression") /\
  Forall (fun r => constructor appDisk (options [r]) = None)
    [ inl "a{2}"; inl "pkg\d"; inl "a]"; inl "a+?"; inl "(?=a)b"; inl "[z-a]"; inr stateful ].
Proof.
  cbv zeta. split; [vm_compute; reflexivity|]. split; [vm_compute; reflexivity|].
  split; [vm_compute; reflexivity|].
  repeat (constructor; [vm_compute; reflexivity|]). constructor.
Qed.

End ConstructorFacts.

(** ** Lower-case names *)

Section LowerCaseNames.
Import JsString Path Bundler Spec Samples.

Lemma workflowBundlePattern_tree :
  workflowBundlePattern
  = RegExp.mkRegExp
      (RegExp.Seq RegExp.AssertStart
         (RegExp.Seq RegExp.Dot
            (RegExp.Seq (RegExp.Class false [("/"%char, "/"%char)])
               (RegExp.Seq (RegExp.Seq (RegExp.Plus id_class) RegExp.Empty) bundle_tail))))
      false.
Proof. vm_compute. reflexivity. Qed.

Lemma ends_Seq ic inp a b i :
  RegExp.ends ic inp (RegExp.Seq a b) i
  = flat_map (RegExp.ends ic inp b) (RegExp.ends ic inp a i).
Proof. reflexivity. Qed.

Lemma ends_Seq_ext ic inp a a' b b' i :
  (forall j, RegExp.ends ic inp b j = RegExp.ends ic inp b' j) ->
  RegExp.ends ic inp a i = RegExp.ends ic inp a' i ->
  RegExp.ends ic inp (RegExp.Seq a b) i = RegExp.ends ic inp (RegExp.Seq a' b') i.
Proof.
  intros Hb Ha. rewrite !ends_Seq, Ha. apply flat_map_ext. exact Hb.
Qed.

Lemma ends_single_class inp c i :
  RegExp.ends false inp (RegExp.Class false [(c, c)]) i
  = RegExp.ends false inp (RegExp.Char c) i.
Proof.
  cbn [RegExp.ends].
  match goal with
  | |- context [match ?t with Some _ => _ | None => _ end] => destruct t as [x|]
  end; [|reflexivity].
  cbn [xorb]. unfold RegExp.char_matches. now rewrite single_class_matches.
Qed.

Lemma bundle_tail_literal inp i :
  RegExp.ends false inp bundle_tail i
  = RegExp.ends false inp (literal_tree (to_chars ".workflowbundle.js")) i.
Proof.
  unfold bundle_tail.
  change (to_chars ".workflowbundle.js")
    with ("."%char :: to_chars "workflowbundle" ++ "."%char :: to_chars "js").
  change (to_chars "workflowbundle")
    with ["w"; "o"; "r"; "k"; "f"; "l"; "o"; "w"; "b"; "u"; "n"; "d"; "l"; "e"]%char.
  change (to_chars "js") with ["j"; "s"]%char.
  cbn [app chars_then literal_tree].
  revert i.
  repeat (intros ?; apply ends_Seq_ext; [|first [apply ends_single_class | reflexivity]]).
  reflexivity.
Qed.

Lemma id_class_accepts x :
  is_id_char x = true ->
  RegExp.class_matches false
    [("a"%char, "z"%char); ("0"%char, "9"%char); ("-"%char, "-"%char)] x = true.
Proof.
  intros H. destruct x as [[] [] [] [] [] [] [] []];
    try (vm_compute in H; discriminate H); vm_compute; reflexivity.
Qed.

Lemma id_class_step (inp : chars) j x :
  inp !! j = Some x -> is_id_char x = true ->
  RegExp.ends false inp id_class j = [S j].
Proof.
  intros Hj Hx. unfold id_class. cbn [RegExp.ends].
  match goal with
  | |- context [match ?t with Some _ => _ | None => _ end] =>
      replace t with (Some x) by (symmetry; exact Hj)
  end.
  now rewrite (id_class_accepts x Hx).
Qed.

(** A run of [n] steps that each advance by one is among the ends of
    the greedy repetition. *)
Lemma star_ends_run (step : nat -> list nat) n :
  forall fuel i,
    n <= fuel ->
    (forall j, i <= j < i + n -> step j = [S j]) ->
    In (i + n) (RegExp.star_ends fuel step i).
Proof.
  induction n as [|n IH]; intros fuel i Hfuel Hstep.
  - rewrite Nat.add_0_r. destruct fuel; cbn [RegExp.star_ends]; [now left|].
    apply in_or_app. right. now left.
  - destruct fuel as [|fuel]; [lia|]. cbn [RegExp.star_ends].
    apply in_or_app. left. rewrite (Hstep i) by lia. cbn [flat_map].
    rewrite (proj2 (Nat.eqb_neq (S i) i)) by lia. rewrite app_nil_r.
    replace (i + S n) with (S i + n) by lia.
    apply IH; [lia|]. intros j Hj. apply Hstep. lia.
Qed.

Lemma head_of_member {A} (l : list A) x : In x l -> is_Some (head l).
Proof. destruct l; [intros [] | eauto]. Qed.

(** The pattern for workflow bundles accepts [./<id>.workflowbundle.js]
    for every non-empty identifier over [a-z0-9-]. *)
Lemma bundle_pattern_accepts (id : string) :
  id ≠ "" -> forallb is_id_char (to_chars id) = true ->
  RegExp.test workflowBundlePattern (bundleTargetPath id) = true.
Proof.
  intros Hne Hid. unfold RegExp.test. rewrite workflowBundlePattern_tree, exec_anchored.
  apply bool_decide_eq_true. rewrite fmap_is_Some.
  set (idl := to_chars id).
  assert (to_chars (bundleTargetPath id)
          = "."%char :: "/"%char :: idl ++ to_chars ".workflowbundle.js") as ->.
  { unfold bundleTargetPath. now rewrite !to_chars_append. }
  set (suffix := to_chars ".workflowbundle.js").
  set (inp := "."%char :: "/"%char :: idl ++ suffix).
  apply (head_of_member _ (length inp)).
  rewrite ends_Seq. apply in_flat_map. exists 1. split; [now left|].
  rewrite ends_Seq. apply in_flat_map. exists 2. split.
  { rewrite ends_single_class. now left. }
  rewrite ends_Seq. apply in_flat_map. exists (2 + length idl). split.
  - rewrite ends_Seq. apply in_flat_map. exists (2 + length idl). split; [|now left].
    assert (forall j, 2 <= j < 2 + length idl ->
                      RegExp.ends false inp id_class j = [S j]) as Hstep.
    { intros j Hj. destruct (idl !! (j - 2)) as [x|] eqn:Hx.
      - apply (id_class_step inp j x).
        + subst inp. replace j with (S (S (j - 2))) by lia. cbn [lookup list_lookup].
          apply lookup_app_l_Some. exact Hx.
        + rewrite forallb_forall in Hid. apply Hid, list_elem_of_In.
          apply list_elem_of_lookup. eauto.
      - apply lookup_ge_None in Hx. lia. }
    destruct idl as [|c idl'] eqn:Hidl.
    { exfalso. apply Hne. apply to_chars_inj. exact Hidl. }
    cbn [RegExp.ends]. apply in_flat_map. exists 3. split.
    + fold id_class. rewrite (Hstep 2) by (cbn [length]; lia). now left.
    + fold id_class. cbn [length]. replace (2 + S (length idl')) with (3 + length idl') by lia.
      apply star_ends_run; [subst inp; cbn [length]; rewrite length_app; cbn [length]; lia|].
      intros j Hj. apply Hstep. cbn [length]. lia.
  - rewrite bundle_tail_literal, ends_literal.
    + rewrite bool_decide_eq_true_2; [now left|].
      subst inp. cbn [drop Nat.add]. now rewrite drop_app_length.
    + subst inp. cbn [length]. rewrite length_app. lia.
Qed.

(** The decimal numerals of the counter consist of digits. *)
Lemma pretty_N_go_id_chars (x : N) :
  forall s, forallb is_id_char (to_chars s) = true ->
            forallb is_id_char (to_chars (pretty_N_go x s)) = true.
Proof.
  induction (N.lt_wf_0 x) as [x _ IH]. intros s Hs.
  destruct (decide (x = 0)%N) as [-> | Hx]; [now rewrite pretty_N_go_0|].
  rewrite pretty_N_go_step by lia.
  apply IH; [apply N.div_lt; lia|].
  change (to_chars (String (pretty_N_char (x `mod` 10)) s))
    with (pretty_N_char (x `mod` 10) :: to_chars s).
  cbn [forallb]. rewrite Hs, andb_true_r.
  unfold pretty_N_char. repeat case_match; reflexivity.
Qed.

Lemma pretty_nat_id_chars (k : nat) : forallb is_id_char (to_chars (pretty k)) = true.
Proof.
  unfold pretty, pretty_nat, pretty, pretty_N.
  destruct (decide (N.of_nat k = 0%N)); [reflexivity|].
  now apply pretty_N_go_id_chars.
Qed.

Lemma lower_alnum_id_chars (l : chars) :
  forallb is_lower_alnum l = true -> forallb is_id_char l = true.
Proof.
  rewrite !forallb_forall. intros H x Hx. unfold is_id_char. now rewrite (H x Hx).
Qed.

(** Every identifier the collision loop can try for a lower-case base
    is a non-empty word over [a-z0-9-]. *)
Lemma candidate_id_chars (base : string) (k : nat) :
  base ≠ "" -> lower_alnum base = true ->
  candidate base k ≠ "" /\ forallb is_id_char (to_chars (candidate base k)) = true.
Proof.
  intros Hne Hlow. apply lower_alnum_id_chars in Hlow.
  destruct k as [|k]; cbn [candidate]; [now split|].
  unfold suffixed. split.
  - destruct base; [contradiction | discriminate].
  - rewrite !to_chars_append, !forallb_app, Hlow, pretty_nat_id_chars. reflexivity.
Qed.

(** *** A name of lower-case letters and digits is left as it is *)

Lemma exec_chars_no_ends (re : RegExp.regexp) (inp : chars) :
  (forall i, RegExp.ends (RegExp.ignoreCase re) inp (RegExp.pattern re) i = []) ->
  RegExp.exec_chars re inp = None.
Proof.
  intros H. unfold RegExp.exec_chars.
  induction (seq 0 (S (length inp))) as [|i l IH]; [reflexivity|].
  cbn [omap list_omap]. now rewrite H.
Qed.

Lemma replace_no_match (s : string) (re : RegExp.regexp) (repl : string) :
  RegExp.exec_chars re (to_chars s) = None -> RegExp.replace s re repl = s.
Proof. unfold RegExp.replace. now intros ->. Qed.

Lemma nonAlphanumericRun_tree :
  nonAlphanumericRun
  = RegExp.mkRegExp
      (RegExp.Seq
         (RegExp.Plus (RegExp.Class true [("a"%char, "z"%char); ("0"%char, "9"%char)]))
         RegExp.Empty)
      true.
Proof. vm_compute. reflexivity. Qed.

Lemma leadingDash_tree :
  leadingDash
  = RegExp.mkRegExp
      (RegExp.Seq RegExp.AssertStart (RegExp.Seq (RegExp.Char "-") RegExp.Empty)) false.
Proof. vm_compute. reflexivity. Qed.

Lemma trailingDash_tree :
  trailingDash = RegExp.mkRegExp (literal_tree ["-"%char]) false.
Proof. vm_compute. reflexivity. Qed.

Lemma lower_alnum_in_class x :
  is_lower_alnum x = true ->
  RegExp.class_matches true [("a"%char, "z"%char); ("0"%char, "9"%char)] x = true /\
  ascii_eqb "-" x = false.
Proof.
  intros H. destruct x as [[] [] [] [] [] [] [] []];
    try (vm_compute in H; discriminate H); vm_compute; split; reflexivity.
Qed.

Lemma lower_alnum_lookup (l : chars) i x :
  forallb is_lower_alnum l = true -> l !! i = Some x -> is_lower_alnum x = true.
Proof.
  rewrite forallb_forall. intros H Hx. apply H, list_elem_of_In.
  apply list_elem_of_lookup. eauto.
Qed.

Lemma no_nonAlphanumericRun (s : string) :
  lower_alnum s = true -> RegExp.replace s nonAlphanumericRun "-" = s.
Proof.
  intros Hlow. apply replace_no_match, exec_chars_no_ends. intros i.
  rewrite nonAlphanumericRun_tree. cbn [RegExp.ignoreCase RegExp.pattern].
  rewrite ends_Seq. cbn [RegExp.ends].
  match goal with
  | |- context [match ?t with Some _ => _ | None => _ end] => destruct t as [x|] eqn:Hx
  end; [|reflexivity].
  apply (lower_alnum_lookup _ _ _ Hlow) in Hx.
  now rewrite (proj1 (lower_alnum_in_class x Hx)).
Qed.

Lemma no_leadingDash (s : string) :
  lower_alnum s = true -> RegExp.replace s leadingDash "" = s.
Proof.
  intros Hlow. apply replace_no_match, exec_chars_no_ends. intros i.
  rewrite leadingDash_tree. cbn [RegExp.ignoreCase RegExp.pattern].
  rewrite ends_Seq. cbn [RegExp.ends].
  destruct (i =? 0) eqn:Hi; [|reflexivity].
  apply Nat.eqb_eq in Hi as ->. cbn [flat_map]. rewrite app_nil_r.
  match goal with
  | |- context [match ?t with Some _ => _ | None => _ end] => destruct t as [x|] eqn:Hx
  end; [|reflexivity].
  apply (lower_alnum_lookup _ _ _ Hlow) in Hx.
  unfold RegExp.char_matches. now rewrite (proj2 (lower_alnum_in_class x Hx)).
Qed.

Lemma no_trailingDash (s : string) :
  lower_alnum s = true -> RegExp.replace s trailingDash "" = s.
Proof.
  intros Hlow. apply replace_no_match, exec_chars_no_ends. intros i.
  rewrite trailingDash_tree. cbn [RegExp.ignoreCase RegExp.pattern literal_tree].
  rewrite ends_Seq. cbn [RegExp.ends].
  match goal with
  | |- context [match ?t with Some _ => _ | None => _ end] => destruct t as [x|] eqn:Hx
  end; [|reflexivity].
  apply (lower_alnum_lookup _ _ _ Hlow) in Hx.
  unfold RegExp.char_matches. now rewrite (proj2 (lower_alnum_in_class x Hx)).
Qed.

Lemma base_of_lower_alnum (w : string) :
  lower_alnum (basename w) = true -> baseWorkflowsBundleId w = basename w.
Proof.
  intros Hlow. unfold baseWorkflowsBundleId.
  now rewrite (no_nonAlphanumericRun _ Hlow), (no_leadingDash _ Hlow),
    (no_trailingDash _ Hlow).
Qed.

Lemma startsWith_bundleTargetPath id : startsWith (bundleTargetPath id) "./" = true.
Proof. reflexivity. Qed.

Lemma some_pattern_matches_member patterns re candidate :
  In re patterns -> RegExp.test re candidate = true ->
  some_pattern_matches patterns candidate = true.
Proof.
  intros Hin Ht. unfold some_pattern_matches. apply existsb_exists. eauto.
Qed.

(** X16. A relative reference whose base name is a non-empty word of
    lower-case letters and digits is rewritten to a request the
    built-in rule for workflow bundles matches: when module
    resolution does not find the rewritten request (the bundle is only
    written after the main build), the classifier externalizes it,
    records nothing and logs no warning. *)
Theorem lower_case_reference_externalized
    (env : environment) (this : bundler) (w f context : string) :
  isRelative w = true ->
  basename w ≠ "" ->
  lower_alnum (basename w) = true ->
  In workflowBundlePattern (externalDepsPatterns this) ->
  exists target this',
    workflowsTransform env w f this = (Return target, this', []) /\
    RegExp.test workflowBundlePattern target = true /\
    (resolve_request env context target = None ->
     extractDependencies env context target this'
     = (Return (Some ("commonjs " +:+ target)), this', [])).
Proof.
  intros Hrel Hne Hlow Hin.
  destruct (workflowsTransform_relative env w f this Hrel) as (id & Halloc & Heq).
  destruct Halloc as (k & -> & _).
  rewrite (base_of_lower_alnum w Hlow) in *.
  destruct (candidate_id_chars (basename w) k Hne Hlow) as [Hid Hchars].
  pose proof (bundle_pattern_accepts _ Hid Hchars) as Htest.
  eexists _, _. split; [exact Heq|]. split; [exact Htest|].
  intros Hres. rewrite extractDependencies_cases, Hres.
  unfold matchRawRequest, bind, get.
  rewrite relativeRequest_startsWith. unfold isRelative.
  rewrite startsWith_bundleTargetPath.
  cbn [externalDepsPatterns assign_workflowsBundle].
  now rewrite (some_pattern_matches_member _ _ _ Hin Htest).
Qed.

Lemma lower_case_reference_externalized_witness :
  exists target this',
    workflowsTransform appEnv "./workflows" "/app/src/worker.ts" appBundler
    = (Return target, this', []) /\
    RegExp.test workflowBundlePattern target = true /\
    (resolve_request appEnv "/app/src" target = None ->
     extractDependencies appEnv "/app/src" target this'
     = (Return (Some ("commonjs " +:+ target)), this', [])).
Proof.
  apply (lower_case_reference_externalized appEnv appBundler "./workflows"
           "/app/src/worker.ts" "/app/src").
  - reflexivity.
  - vm_compute. discriminate.
  - vm_compute. reflexivity.
  - left. reflexivity.
Defined.

End LowerCaseNames.
